(** * mimalloc-glue: the allocator interposition shim

    A shallow embedding of [mimalloc-glue.c]: the table [lut] of resolved
    function pointers, the resolver [resolve_func], the guard
    [check_defined], the load-time constructor [init] and the twenty
    forwarding wrappers, followed by the properties of the resolution rule,
    of the bootstrap order and of the forwarding surface.

    The dynamic loader, the implementations reached through function
    pointers, the diagnostic stream and [abort] are the environment of the
    program.  The loader and the implementations are an oracle
    ([environment]); every interaction with them is recorded in the event
    log of the process state, so that statements about the order of
    actions are statements about that log. *)

From Stdlib Require Import ZArith String List Bool.
Import ListNotations.

Local Open Scope string_scope.
Local Open Scope list_scope.
Local Open Scope Z_scope.

(** ** Addresses, loader handles and flags *)

(** [void*] and every scalar that crosses the wrappers ([size_t], [int],
    [char*]) is a machine word; the shim never computes with them, it only
    compares pointers with [==] and passes words on. *)
Definition ptr : Type := Z.

Definition NULL : ptr := 0.

(** The [dlopen] flags the program uses, with the values of glibc's
    [<dlfcn.h>]. *)
Definition RTLD_NOW : Z := 2.
Definition RTLD_NOLOAD : Z := 4.

(** The first argument of [dlsym]: the pseudo-handle [RTLD_NEXT] or a
    handle returned by [dlopen]. *)
Inductive handle : Type :=
| RTLD_NEXT
| Lib (h : ptr).

(** Line feed, written as the escape in the C string literals. *)
Definition nl : string := String (Ascii.ascii_of_nat 10) EmptyString.

(** ** The lookup table *)

(** The members of [struct malloc_lut], in declaration order. *)
Inductive symbol : Type :=
| sym_malloc
| sym_calloc
| sym_realloc
| sym_free
| sym_strdup
| sym_strndup
| sym_realpath
| sym_reallocf
| sym_malloc_size
| sym_malloc_usable_size
| sym_malloc_good_size
| sym_cfree
| sym_valloc
| sym_pvalloc
| sym_reallocarray
| sym_reallocarr
| sym_memalign
| sym_aligned_alloc
| sym_posix_memalign
| sym__posix_memalign.

Definition all_symbols : list symbol :=
  [ sym_malloc; sym_calloc; sym_realloc; sym_free; sym_strdup; sym_strndup;
    sym_realpath; sym_reallocf; sym_malloc_size; sym_malloc_usable_size;
    sym_malloc_good_size; sym_cfree; sym_valloc; sym_pvalloc;
    sym_reallocarray; sym_reallocarr; sym_memalign; sym_aligned_alloc;
    sym_posix_memalign; sym__posix_memalign ].

(** The name under which each member is looked up and reported. *)
Definition name (s : symbol) : string :=
  match s with
  | sym_malloc => "malloc"
  | sym_calloc => "calloc"
  | sym_realloc => "realloc"
  | sym_free => "free"
  | sym_strdup => "strdup"
  | sym_strndup => "strndup"
  | sym_realpath => "realpath"
  | sym_reallocf => "reallocf"
  | sym_malloc_size => "malloc_size"
  | sym_malloc_usable_size => "malloc_usable_size"
  | sym_malloc_good_size => "malloc_good_size"
  | sym_cfree => "cfree"
  | sym_valloc => "valloc"
  | sym_pvalloc => "pvalloc"
  | sym_reallocarray => "reallocarray"
  | sym_reallocarr => "reallocarr"
  | sym_memalign => "memalign"
  | sym_aligned_alloc => "aligned_alloc"
  | sym_posix_memalign => "posix_memalign"
  | sym__posix_memalign => "_posix_memalign"
  end.

(** [struct malloc_lut]: one function pointer per symbol. *)
Module Lut.

Record t : Type := Build {
  malloc : ptr;
  calloc : ptr;
  realloc : ptr;
  free : ptr;
  strdup : ptr;
  strndup : ptr;
  realpath : ptr;
  reallocf : ptr;
  malloc_size : ptr;
  malloc_usable_size : ptr;
  malloc_good_size : ptr;
  cfree : ptr;
  valloc : ptr;
  pvalloc : ptr;
  reallocarray : ptr;
  reallocarr : ptr;
  memalign : ptr;
  aligned_alloc : ptr;
  posix_memalign : ptr;
  _posix_memalign : ptr
}.

(** The static initialiser of the global [lut]: twenty times [NULL]. *)
Definition initial : t :=
  Build NULL NULL NULL NULL NULL NULL NULL NULL NULL NULL
        NULL NULL NULL NULL NULL NULL NULL NULL NULL NULL.

(** Member access [lut.s]. *)
Definition get (s : symbol) (l : t) : ptr :=
  match s with
  | sym_malloc => malloc l
  | sym_calloc => calloc l
  | sym_realloc => realloc l
  | sym_free => free l
  | sym_strdup => strdup l
  | sym_strndup => strndup l
  | sym_realpath => realpath l
  | sym_reallocf => reallocf l
  | sym_malloc_size => malloc_size l
  | sym_malloc_usable_size => malloc_usable_size l
  | sym_malloc_good_size => malloc_good_size l
  | sym_cfree => cfree l
  | sym_valloc => valloc l
  | sym_pvalloc => pvalloc l
  | sym_reallocarray => reallocarray l
  | sym_reallocarr => reallocarr l
  | sym_memalign => memalign l
  | sym_aligned_alloc => aligned_alloc l
  | sym_posix_memalign => posix_memalign l
  | sym__posix_memalign => _posix_memalign l
  end.

(** Member assignment [lut.s = p]. *)
Definition set (s : symbol) (p : ptr) (l : t) : t :=
  match s with
  | sym_malloc =>
      Build p (calloc l) (realloc l) (free l) (strdup l) (strndup l)
           (realpath l) (reallocf l) (malloc_size l) (malloc_usable_size l)
           (malloc_good_size l) (cfree l) (valloc l) (pvalloc l)
           (reallocarray l) (reallocarr l) (memalign l) (aligned_alloc l)
           (posix_memalign l) (_posix_memalign l)
  | sym_calloc =>
      Build (malloc l) p (realloc l) (free l) (strdup l) (strndup l)
           (realpath l) (reallocf l) (malloc_size l) (malloc_usable_size l)
           (malloc_good_size l) (cfree l) (valloc l) (pvalloc l)
           (reallocarray l) (reallocarr l) (memalign l) (aligned_alloc l)
           (posix_memalign l) (_posix_memalign l)
  | sym_realloc =>
      Build (malloc l) (calloc l) p (free l) (strdup l) (strndup l)
           (realpath l) (reallocf l) (malloc_size l) (malloc_usable_size l)
           (malloc_good_size l) (cfree l) (valloc l) (pvalloc l)
           (reallocarray l) (reallocarr l) (memalign l) (aligned_alloc l)
           (posix_memalign l) (_posix_memalign l)
  | sym_free =>
      Build (malloc l) (calloc l) (realloc l) p (strdup l) (strndup l)
           (realpath l) (reallocf l) (malloc_size l) (malloc_usable_size l)
           (malloc_good_size l) (cfree l) (valloc l) (pvalloc l)
           (reallocarray l) (reallocarr l) (memalign l) (aligned_alloc l)
           (posix_memalign l) (_posix_memalign l)
  | sym_strdup =>
      Build (malloc l) (calloc l) (realloc l) (free l) p (strndup l)
           (realpath l) (reallocf l) (malloc_size l) (malloc_usable_size l)
           (malloc_good_size l) (cfree l) (valloc l) (pvalloc l)
           (reallocarray l) (reallocarr l) (memalign l) (aligned_alloc l)
           (posix_memalign l) (_posix_memalign l)
  | sym_strndup =>
      Build (malloc l) (calloc l) (realloc l) (free l) (strdup l) p
           (realpath l) (reallocf l) (malloc_size l) (malloc_usable_size l)
           (malloc_good_size l) (cfree l) (valloc l) (pvalloc l)
           (reallocarray l) (reallocarr l) (memalign l) (aligned_alloc l)
           (posix_memalign l) (_posix_memalign l)
  | sym_realpath =>
      Build (malloc l) (calloc l) (realloc l) (free l) (strdup l)
           (strndup l) p (reallocf l) (malloc_size l) (malloc_usable_size l)
           (malloc_good_size l) (cfree l) (valloc l) (pvalloc l)
           (reallocarray l) (reallocarr l) (memalign l) (aligned_alloc l)
           (posix_memalign l) (_posix_memalign l)
  | sym_reallocf =>
      Build (malloc l) (calloc l) (realloc l) (free l) (strdup l)
           (strndup l) (realpath l) p (malloc_size l) (malloc_usable_size l)
           (malloc_good_size l) (cfree l) (valloc l) (pvalloc l)
           (reallocarray l) (reallocarr l) (memalign l) (aligned_alloc l)
           (posix_memalign l) (_posix_memalign l)
  | sym_malloc_size =>
      Build (malloc l) (calloc l) (realloc l) (free l) (strdup l)
           (strndup l) (realpath l) (reallocf l) p (malloc_usable_size l)
           (malloc_good_size l) (cfree l) (valloc l) (pvalloc l)
           (reallocarray l) (reallocarr l) (memalign l) (aligned_alloc l)
           (posix_memalign l) (_posix_memalign l)
  | sym_malloc_usable_size =>
      Build (malloc l) (calloc l) (realloc l) (free l) (strdup l)
           (strndup l) (realpath l) (reallocf l) (malloc_size l) p
           (malloc_good_size l) (cfree l) (valloc l) (pvalloc l)
           (reallocarray l) (reallocarr l) (memalign l) (aligned_alloc l)
           (posix_memalign l) (_posix_memalign l)
  | sym_malloc_good_size =>
      Build (malloc l) (calloc l) (realloc l) (free l) (strdup l)
           (strndup l) (realpath l) (reallocf l) (malloc_size l)
           (malloc_usable_size l) p (cfree l) (valloc l) (pvalloc l)
           (reallocarray l) (reallocarr l) (memalign l) (aligned_alloc l)
           (posix_memalign l) (_posix_memalign l)
  | sym_cfree =>
      Build (malloc l) (calloc l) (realloc l) (free l) (strdup l)
           (strndup l) (realpath l) (reallocf l) (malloc_size l)
           (malloc_usable_size l) (malloc_good_size l) p (valloc l)
           (pvalloc l) (reallocarray l) (reallocarr l) (memalign l)
           (aligned_alloc l) (posix_memalign l) (_posix_memalign l)
  | sym_valloc =>
      Build (malloc l) (calloc l) (realloc l) (free l) (strdup l)
           (strndup l) (realpath l) (reallocf l) (malloc_size l)
           (malloc_usable_size l) (malloc_good_size l) (cfree l) p
           (pvalloc l) (reallocarray l) (reallocarr l) (memalign l)
           (aligned_alloc l) (posix_memalign l) (_posix_memalign l)
  | sym_pvalloc =>
      Build (malloc l) (calloc l) (realloc l) (free l) (strdup l)
           (strndup l) (realpath l) (reallocf l) (malloc_size l)
           (malloc_usable_size l) (malloc_good_size l) (cfree l) (valloc l)
           p (reallocarray l) (reallocarr l) (memalign l) (aligned_alloc l)
           (posix_memalign l) (_posix_memalign l)
  | sym_reallocarray =>
      Build (malloc l) (calloc l) (realloc l) (free l) (strdup l)
           (strndup l) (realpath l) (reallocf l) (malloc_size l)
           (malloc_usable_size l) (malloc_good_size l) (cfree l) (valloc l)
           (pvalloc l) p (reallocarr l) (memalign l) (aligned_alloc l)
           (posix_memalign l) (_posix_memalign l)
  | sym_reallocarr =>
      Build (malloc l) (calloc l) (realloc l) (free l) (strdup l)
           (strndup l) (realpath l) (reallocf l) (malloc_size l)
           (malloc_usable_size l) (malloc_good_size l) (cfree l) (valloc l)
           (pvalloc l) (reallocarray l) p (memalign l) (aligned_alloc l)
           (posix_memalign l) (_posix_memalign l)
  | sym_memalign =>
      Build (malloc l) (calloc l) (realloc l) (free l) (strdup l)
           (strndup l) (realpath l) (reallocf l) (malloc_size l)
           (malloc_usable_size l) (malloc_good_size l) (cfree l) (valloc l)
           (pvalloc l) (reallocarray l) (reallocarr l) p (aligned_alloc l)
           (posix_memalign l) (_posix_memalign l)
  | sym_aligned_alloc =>
      Build (malloc l) (calloc l) (realloc l) (free l) (strdup l)
           (strndup l) (realpath l) (reallocf l) (malloc_size l)
           (malloc_usable_size l) (malloc_good_size l) (cfree l) (valloc l)
           (pvalloc l) (reallocarray l) (reallocarr l) (memalign l) p
           (posix_memalign l) (_posix_memalign l)
  | sym_posix_memalign =>
      Build (malloc l) (calloc l) (realloc l) (free l) (strdup l)
           (strndup l) (realpath l) (reallocf l) (malloc_size l)
           (malloc_usable_size l) (malloc_good_size l) (cfree l) (valloc l)
           (pvalloc l) (reallocarray l) (reallocarr l) (memalign l)
           (aligned_alloc l) p (_posix_memalign l)
  | sym__posix_memalign =>
      Build (malloc l) (calloc l) (realloc l) (free l) (strdup l)
           (strndup l) (realpath l) (reallocf l) (malloc_size l)
           (malloc_usable_size l) (malloc_good_size l) (cfree l) (valloc l)
           (pvalloc l) (reallocarray l) (reallocarr l) (memalign l)
           (aligned_alloc l) (posix_memalign l) p
  end.

End Lut.

Definition malloc_lut : Type := Lut.t.

(** ** Process state and observable events *)

(** What the process does that can be observed from outside the shim, with
    the answers it got. *)
Inductive event : Type :=
| EvDlopen (file : string) (flags : Z) (result : ptr)
| EvDlsym (h : handle) (symbol : string) (result : ptr)
| EvStderr (msg : string)
| EvStore (field : symbol) (value : ptr)
| EvCall (f : ptr) (args : list Z)
| EvAbort.

(** The environment of the shim.  [ld_dlopen] and [ld_dlsym] are the
    loader's answers; [ld_call f args w] is the result and the effect on
    the rest of the process memory [w] of calling the code at address [f].
    The loader answers the same question the same way throughout a run.
    The table [lut] is [static], so the called code cannot name it. *)
Record environment (W : Type) : Type := {
  ld_dlopen : string -> Z -> ptr;
  ld_dlsym : handle -> string -> ptr;
  ld_call : ptr -> list Z -> W -> Z * W
}.

Arguments ld_dlopen {W}.
Arguments ld_dlsym {W}.
Arguments ld_call {W}.

(** The state of the process: the global [lut], the memory outside the
    shim, and the log of events, most recent first. *)
Record state (W : Type) : Type := {
  lut : malloc_lut;
  world : W;
  log : list event
}.

Arguments lut {W}.
Arguments world {W}.
Arguments log {W}.

(** A computation either returns or ends the process through [abort]. *)
Inductive outcome (A : Type) : Type :=
| Ret (a : A)
| Aborted.

Arguments Ret {A}.
Arguments Aborted {A}.

Definition M (W A : Type) : Type := state W -> outcome A * state W.

Definition ret {W A} (a : A) : M W A := fun st => (Ret a, st).

Definition bind {W A B} (m : M W A) (k : A -> M W B) : M W B :=
  fun st =>
    match m st with
    | (Ret a, st') => k a st'
    | (Aborted, st') => (Aborted, st')
    end.

Declare Scope shim_scope.
Delimit Scope shim_scope with shim.

Notation "x <- c1 ;; c2" := (bind c1 (fun x => c2))
  (at level 100, c1 at next level, right associativity) : shim_scope.
Notation "c1 ;; c2" := (bind c1 (fun _ => c2))
  (at level 100, right associativity) : shim_scope.

Local Open Scope shim_scope.

Definition emit {W} (e : event) (st : state W) : state W :=
  {| lut := lut st; world := world st; log := e :: log st |}.

(** [emitted st st' evs]: going from [st] to [st'] the process produced
    exactly the events [evs], in that order. *)
Definition emitted {W} (st st' : state W) (evs : list event) : Prop :=
  log st' = rev evs ++ log st.

(** [abort()] raises [SIGABRT]; the status a shell reports for a process
    killed by signal [n] is [128 + n]. *)
Definition SIGABRT : Z := 6.

Definition exit_status {A} (o : outcome A) : option Z :=
  match o with
  | Ret _ => None
  | Aborted => Some (128 + SIGABRT)
  end.

(** ** Calls into the exported surface *)

(** A call of one of the twenty exported functions with its arguments. *)
Inductive call_request : Type :=
| call_malloc (size : Z)
| call_calloc (n size : Z)
| call_realloc (ptr size : Z)
| call_free (ptr : Z)
| call_strdup (s : Z)
| call_strndup (s n : Z)
| call_realpath (path resolved_path : Z)
| call_reallocf (ptr size : Z)
| call_malloc_size (ptr : Z)
| call_malloc_usable_size (ptr : Z)
| call_malloc_good_size (size : Z)
| call_cfree (ptr : Z)
| call_valloc (size : Z)
| call_pvalloc (size : Z)
| call_reallocarray (ptr n size : Z)
| call_reallocarr (ptr n size : Z)
| call_memalign (alignment size : Z)
| call_aligned_alloc (alignment size : Z)
| call_posix_memalign (memptr alignment size : Z)
| call__posix_memalign (memptr alignment size : Z).

(** The exported symbol a call is addressed to. *)
Definition sym_of (c : call_request) : symbol :=
  match c with
  | call_malloc _ => sym_malloc
  | call_calloc _ _ => sym_calloc
  | call_realloc _ _ => sym_realloc
  | call_free _ => sym_free
  | call_strdup _ => sym_strdup
  | call_strndup _ _ => sym_strndup
  | call_realpath _ _ => sym_realpath
  | call_reallocf _ _ => sym_reallocf
  | call_malloc_size _ => sym_malloc_size
  | call_malloc_usable_size _ => sym_malloc_usable_size
  | call_malloc_good_size _ => sym_malloc_good_size
  | call_cfree _ => sym_cfree
  | call_valloc _ => sym_valloc
  | call_pvalloc _ => sym_pvalloc
  | call_reallocarray _ _ _ => sym_reallocarray
  | call_reallocarr _ _ _ => sym_reallocarr
  | call_memalign _ _ => sym_memalign
  | call_aligned_alloc _ _ => sym_aligned_alloc
  | call_posix_memalign _ _ _ => sym_posix_memalign
  | call__posix_memalign _ _ _ => sym__posix_memalign
  end.

(** The caller's arguments, in order. *)
Definition args_of (c : call_request) : list Z :=
  match c with
  | call_malloc size => [size]
  | call_calloc n size => [n; size]
  | call_realloc ptr size => [ptr; size]
  | call_free ptr => [ptr]
  | call_strdup s => [s]
  | call_strndup s n => [s; n]
  | call_realpath path resolved_path => [path; resolved_path]
  | call_reallocf ptr size => [ptr; size]
  | call_malloc_size ptr => [ptr]
  | call_malloc_usable_size ptr => [ptr]
  | call_malloc_good_size size => [size]
  | call_cfree ptr => [ptr]
  | call_valloc size => [size]
  | call_pvalloc size => [size]
  | call_reallocarray ptr n size => [ptr; n; size]
  | call_reallocarr ptr n size => [ptr; n; size]
  | call_memalign alignment size => [alignment; size]
  | call_aligned_alloc alignment size => [alignment; size]
  | call_posix_memalign memptr alignment size => [memptr; alignment; size]
  | call__posix_memalign memptr alignment size => [memptr; alignment; size]
  end.

(** [free] and [cfree] return [void]. *)
Definition returns_void (s : symbol) : bool :=
  match s with
  | sym_free | sym_cfree => true
  | _ => false
  end.

Section Shim.

Context {W : Type}.
Variable env : environment W.

(** *** Primitive actions *)

(** [dlopen] and [dlsym] are recorded with the loader's answer.  What the
    loader does to the memory outside the shim on the way (mapping a
    library, running its initialisers, allocating) is not modelled, and
    nothing below is stated about it. *)
Definition dlopen (file : string) (flags : Z) : M W ptr :=
  fun st =>
    let h := ld_dlopen env file flags in
    (Ret h, emit (EvDlopen file flags h) st).

Definition dlsym (h : handle) (symbol : string) : M W ptr :=
  fun st =>
    let p := ld_dlsym env h symbol in
    (Ret p, emit (EvDlsym h symbol p) st).

(** [fprintf(stderr, ...)] with the formatted text. *)
Definition fprintf_stderr (msg : string) : M W unit :=
  fun st => (Ret tt, emit (EvStderr msg) st).

Definition abort {A} : M W A :=
  fun st => (Aborted, emit EvAbort st).

(** Reading a member of the global [lut]. *)
Definition load (s : symbol) : M W ptr :=
  fun st => (Ret (Lut.get s (lut st)), st).

(** Assigning a member of the global [lut]. *)
Definition store (s : symbol) (p : ptr) : M W unit :=
  fun st =>
    (Ret tt,
     {| lut := Lut.set s p (lut st);
        world := world st;
        log := EvStore s p :: log st |}).

(** A call through a function pointer. *)
Definition icall (f : ptr) (args : list Z) : M W Z :=
  fun st =>
    let r := ld_call env f args (world st) in
    (Ret (fst r),
     {| lut := lut st; world := snd r; log := EvCall f args :: log st |}).

(** *** [resolve_func] *)

Definition resolve_func (symbol : string) : M W ptr :=
  libc_so <- dlopen "libc.so.6" (Z.lor RTLD_NOW RTLD_NOLOAD) ;;
  if libc_so =? NULL then
    (fprintf_stderr ("libc.so.6 not loaded" ++ nl)%string ;; abort)
  else
  libmimalloc_so <- dlopen "libmimalloc.so" RTLD_NOW ;;
  if libmimalloc_so =? NULL then
    (fprintf_stderr ("Failed to load libmimalloc.so" ++ nl)%string ;; abort)
  else
  libc_sym <- dlsym (Lib libc_so) symbol ;;
  libmimalloc_sym <- dlsym (Lib libmimalloc_so) symbol ;;
  next_sym <- dlsym RTLD_NEXT symbol ;;
  if (next_sym =? libc_sym) || (next_sym =? libmimalloc_sym) then
    ret libmimalloc_sym
  else
    ret next_sym.

(** *** [check_defined] *)

Definition check_defined (symbol : ptr) (name : string) : M W unit :=
  if symbol =? NULL then
    (fprintf_stderr (name ++ "() is not defined" ++ nl)%string ;; abort)
  else
    ret tt.

(** *** [init], the constructor run when the library is loaded *)

Definition init : M W unit :=
  (* temporarily set defaults for resolve_func() to work *)
  p <- dlsym RTLD_NEXT "malloc" ;; store sym_malloc p ;;
  p <- dlsym RTLD_NEXT "calloc" ;; store sym_calloc p ;;
  p <- dlsym RTLD_NEXT "realloc" ;; store sym_realloc p ;;
  p <- dlsym RTLD_NEXT "free" ;; store sym_free p ;;
  p <- dlsym RTLD_NEXT "strdup" ;; store sym_strdup p ;;
  p <- dlsym RTLD_NEXT "strndup" ;; store sym_strndup p ;;
  p <- dlsym RTLD_NEXT "realpath" ;; store sym_realpath p ;;
  p <- dlsym RTLD_NEXT "reallocf" ;; store sym_reallocf p ;;
  p <- dlsym RTLD_NEXT "malloc_size" ;; store sym_malloc_size p ;;
  p <- dlsym RTLD_NEXT "malloc_usable_size" ;;
  store sym_malloc_usable_size p ;;
  p <- dlsym RTLD_NEXT "malloc_good_size" ;; store sym_malloc_good_size p ;;
  p <- dlsym RTLD_NEXT "cfree" ;; store sym_cfree p ;;
  p <- dlsym RTLD_NEXT "valloc" ;; store sym_valloc p ;;
  p <- dlsym RTLD_NEXT "pvalloc" ;; store sym_pvalloc p ;;
  p <- dlsym RTLD_NEXT "reallocarray" ;; store sym_reallocarray p ;;
  p <- dlsym RTLD_NEXT "reallocarr" ;; store sym_reallocarr p ;;
  p <- dlsym RTLD_NEXT "memalign" ;; store sym_memalign p ;;
  p <- dlsym RTLD_NEXT "aligned_alloc" ;; store sym_aligned_alloc p ;;
  p <- dlsym RTLD_NEXT "posix_memalign" ;; store sym_posix_memalign p ;;
  p <- dlsym RTLD_NEXT "_posix_memalign" ;; store sym__posix_memalign p ;;
  (* now resolve *)
  malloc <- resolve_func "malloc" ;;
  calloc <- resolve_func "calloc" ;;
  realloc <- resolve_func "realloc" ;;
  free <- resolve_func "free" ;;
  strdup <- resolve_func "strdup" ;;
  strndup <- resolve_func "strndup" ;;
  realpath <- resolve_func "realpath" ;;
  reallocf <- resolve_func "reallocf" ;;
  malloc_size <- resolve_func "malloc_size" ;;
  malloc_usable_size <- resolve_func "malloc_usable_size" ;;
  malloc_good_size <- resolve_func "malloc_good_size" ;;
  cfree <- resolve_func "cfree" ;;
  valloc <- resolve_func "valloc" ;;
  pvalloc <- resolve_func "pvalloc" ;;
  reallocarray <- resolve_func "reallocarray" ;;
  reallocarr <- resolve_func "reallocarr" ;;
  memalign <- resolve_func "memalign" ;;
  aligned_alloc <- resolve_func "aligned_alloc" ;;
  posix_memalign <- resolve_func "posix_memalign" ;;
  _posix_memalign <- resolve_func "_posix_memalign" ;;
  (* finally bulk update *)
  store sym_malloc malloc ;;
  store sym_calloc calloc ;;
  store sym_realloc realloc ;;
  store sym_free free ;;
  store sym_strdup strdup ;;
  store sym_strndup strndup ;;
  store sym_realpath realpath ;;
  store sym_reallocf reallocf ;;
  store sym_malloc_size malloc_size ;;
  store sym_malloc_usable_size malloc_usable_size ;;
  store sym_malloc_good_size malloc_good_size ;;
  store sym_cfree cfree ;;
  store sym_valloc valloc ;;
  store sym_pvalloc pvalloc ;;
  store sym_reallocarray reallocarray ;;
  store sym_reallocarr reallocarr ;;
  store sym_memalign memalign ;;
  store sym_aligned_alloc aligned_alloc ;;
  store sym_posix_memalign posix_memalign ;;
  store sym__posix_memalign _posix_memalign.

(** *** The wrappers *)

Definition malloc (size : Z) : M W Z :=
  p <- load sym_malloc ;; check_defined p "malloc" ;;
  f <- load sym_malloc ;; icall f [size].

Definition calloc (n size : Z) : M W Z :=
  p <- load sym_calloc ;; check_defined p "calloc" ;;
  f <- load sym_calloc ;; icall f [n; size].

Definition realloc (ptr size : Z) : M W Z :=
  p <- load sym_realloc ;; check_defined p "realloc" ;;
  f <- load sym_realloc ;; icall f [ptr; size].

Definition free (ptr : Z) : M W unit :=
  p <- load sym_free ;; check_defined p "free" ;;
  f <- load sym_free ;; _ <- icall f [ptr] ;; ret tt.

Definition strdup (s : Z) : M W Z :=
  p <- load sym_strdup ;; check_defined p "strdup" ;;
  f <- load sym_strdup ;; icall f [s].

Definition strndup (s n : Z) : M W Z :=
  p <- load sym_strndup ;; check_defined p "strndup" ;;
  f <- load sym_strndup ;; icall f [s; n].

Definition realpath (path resolved_path : Z) : M W Z :=
  p <- load sym_realpath ;; check_defined p "realpath" ;;
  f <- load sym_realpath ;; icall f [path; resolved_path].

Definition reallocf (ptr size : Z) : M W Z :=
  p <- load sym_reallocf ;; check_defined p "reallocf" ;;
  f <- load sym_reallocf ;; icall f [ptr; size].

Definition malloc_size (ptr : Z) : M W Z :=
  p <- load sym_malloc_size ;; check_defined p "malloc_size" ;;
  f <- load sym_malloc_size ;; icall f [ptr].

Definition malloc_usable_size (ptr : Z) : M W Z :=
  p <- load sym_malloc_usable_size ;;
  check_defined p "malloc_usable_size" ;;
  f <- load sym_malloc_usable_size ;; icall f [ptr].

Definition malloc_good_size (size : Z) : M W Z :=
  p <- load sym_malloc_good_size ;; check_defined p "malloc_good_size" ;;
  f <- load sym_malloc_good_size ;; icall f [size].

Definition cfree (ptr : Z) : M W unit :=
  p <- load sym_cfree ;; check_defined p "cfree" ;;
  f <- load sym_cfree ;; _ <- icall f [ptr] ;; ret tt.

Definition valloc (size : Z) : M W Z :=
  p <- load sym_valloc ;; check_defined p "valloc" ;;
  f <- load sym_valloc ;; icall f [size].

Definition pvalloc (size : Z) : M W Z :=
  p <- load sym_pvalloc ;; check_defined p "pvalloc" ;;
  f <- load sym_pvalloc ;; icall f [size].

Definition reallocarray (ptr n size : Z) : M W Z :=
  p <- load sym_reallocarray ;; check_defined p "reallocarray" ;;
  f <- load sym_reallocarray ;; icall f [ptr; n; size].

Definition reallocarr (ptr n size : Z) : M W Z :=
  p <- load sym_reallocarr ;; check_defined p "reallocarr" ;;
  f <- load sym_reallocarr ;; icall f [ptr; n; size].

Definition memalign (alignment size : Z) : M W Z :=
  p <- load sym_memalign ;; check_defined p "memalign" ;;
  f <- load sym_memalign ;; icall f [alignment; size].

Definition aligned_alloc (alignment size : Z) : M W Z :=
  p <- load sym_aligned_alloc ;; check_defined p "aligned_alloc" ;;
  f <- load sym_aligned_alloc ;; icall f [alignment; size].

Definition posix_memalign (memptr alignment size : Z) : M W Z :=
  p <- load sym_posix_memalign ;; check_defined p "posix_memalign" ;;
  f <- load sym_posix_memalign ;; icall f [memptr; alignment; size].

Definition _posix_memalign (memptr alignment size : Z) : M W Z :=
  p <- load sym__posix_memalign ;; check_defined p "_posix_memalign" ;;
  f <- load sym__posix_memalign ;; icall f [memptr; alignment; size].

(** *** The process *)

Definition valued (m : M W Z) : M W (option Z) :=
  v <- m ;; ret (Some v).

Definition void (m : M W unit) : M W (option Z) :=
  m ;; ret None.

(** Entering the exported function a call names.  The result is [None]
    for a function returning [void]. *)
Definition invoke (c : call_request) : M W (option Z) :=
  match c with
  | call_malloc size => valued (malloc size)
  | call_calloc n size => valued (calloc n size)
  | call_realloc ptr size => valued (realloc ptr size)
  | call_free ptr => void (free ptr)
  | call_strdup s => valued (strdup s)
  | call_strndup s n => valued (strndup s n)
  | call_realpath path resolved_path => valued (realpath path resolved_path)
  | call_reallocf ptr size => valued (reallocf ptr size)
  | call_malloc_size ptr => valued (malloc_size ptr)
  | call_malloc_usable_size ptr => valued (malloc_usable_size ptr)
  | call_malloc_good_size size => valued (malloc_good_size size)
  | call_cfree ptr => void (cfree ptr)
  | call_valloc size => valued (valloc size)
  | call_pvalloc size => valued (pvalloc size)
  | call_reallocarray ptr n size => valued (reallocarray ptr n size)
  | call_reallocarr ptr n size => valued (reallocarr ptr n size)
  | call_memalign alignment size => valued (memalign alignment size)
  | call_aligned_alloc alignment size =>
      valued (aligned_alloc alignment size)
  | call_posix_memalign memptr alignment size =>
      valued (posix_memalign memptr alignment size)
  | call__posix_memalign memptr alignment size =>
      valued (_posix_memalign memptr alignment size)
  end.

(** The calls the program makes after the library is loaded, in order. *)
Fixpoint run_calls (cs : list call_request) : M W (list (option Z)) :=
  match cs with
  | [] => ret []
  | c :: cs' =>
      r <- invoke c ;;
      rs <- run_calls cs' ;;
      ret (r :: rs)
  end.

(** A process with the shim preloaded: the constructor, then the calls. *)
Definition process (cs : list call_request) : M W (list (option Z)) :=
  init ;; run_calls cs.

End Shim.

Arguments abort {W A}.

(** ** Vocabulary of the statements *)

(** The state of the process when the library is loaded: the static
    initialiser of [lut], nothing logged yet. *)
Definition boot {W} (w : W) : state W :=
  {| lut := Lut.initial; world := w; log := [] |}.

(** The answers of the loader that [resolve_func] works with. *)
Definition libc_handle {W} (env : environment W) : ptr :=
  ld_dlopen env "libc.so.6" (Z.lor RTLD_NOW RTLD_NOLOAD).

Definition mimalloc_handle {W} (env : environment W) : ptr :=
  ld_dlopen env "libmimalloc.so" RTLD_NOW.

Definition libc_addr {W} (env : environment W) (symbol : string) : ptr :=
  ld_dlsym env (Lib (libc_handle env)) symbol.

Definition mimalloc_addr {W} (env : environment W) (symbol : string) : ptr :=
  ld_dlsym env (Lib (mimalloc_handle env)) symbol.

Definition next_addr {W} (env : environment W) (symbol : string) : ptr :=
  ld_dlsym env RTLD_NEXT symbol.

(** The decision rule in the words of the design: when the "next" address
    is the platform's own or the alternative allocator's, take the
    alternative allocator's; otherwise keep the "next" address. *)
Definition decision_rule (next platform alternative : ptr) : ptr :=
  if Z.eq_dec next platform then alternative
  else if Z.eq_dec next alternative then alternative
  else next.

Definition selected {W} (env : environment W) (symbol : string) : ptr :=
  decision_rule (next_addr env symbol) (libc_addr env symbol)
    (mimalloc_addr env symbol).

(** The table whose member [s] holds [f (name s)]. *)
Definition lut_of (f : string -> ptr) : malloc_lut :=
  Lut.Build
    (f "malloc") (f "calloc") (f "realloc") (f "free") (f "strdup")
    (f "strndup") (f "realpath") (f "reallocf") (f "malloc_size")
    (f "malloc_usable_size") (f "malloc_good_size") (f "cfree")
    (f "valloc") (f "pvalloc") (f "reallocarray") (f "reallocarr")
    (f "memalign") (f "aligned_alloc") (f "posix_memalign")
    (f "_posix_memalign").

(** The three phases of a complete [init], as events. *)
Definition default_events {W} (env : environment W) (s : symbol)
  : list event :=
  [ EvDlsym RTLD_NEXT (name s) (next_addr env (name s));
    EvStore s (next_addr env (name s)) ].

Definition resolve_events {W} (env : environment W) (symbol : string)
  : list event :=
  [ EvDlopen "libc.so.6" (Z.lor RTLD_NOW RTLD_NOLOAD) (libc_handle env);
    EvDlopen "libmimalloc.so" RTLD_NOW (mimalloc_handle env);
    EvDlsym (Lib (libc_handle env)) symbol (libc_addr env symbol);
    EvDlsym (Lib (mimalloc_handle env)) symbol (mimalloc_addr env symbol);
    EvDlsym RTLD_NEXT symbol (next_addr env symbol) ].

Definition install_events {W} (env : environment W) (s : symbol)
  : list event :=
  [ EvStore s (selected env (name s)) ].

Definition default_phase {W} (env : environment W) : list event :=
  flat_map (default_events env) all_symbols.

Definition resolve_phase {W} (env : environment W) : list event :=
  flat_map (fun s => resolve_events env (name s)) all_symbols.

Definition install_phase {W} (env : environment W) : list event :=
  flat_map (install_events env) all_symbols.

(** The diagnostics. *)
Definition msg_no_libc : string := ("libc.so.6 not loaded" ++ nl)%string.
Definition msg_no_mimalloc : string :=
  ("Failed to load libmimalloc.so" ++ nl)%string.
Definition msg_undefined (s : symbol) : string :=
  (name s ++ "() is not defined" ++ nl)%string.

Definition is_store (e : event) : bool :=
  match e with EvStore _ _ => true | _ => false end.

Definition is_dlsym (e : event) : bool :=
  match e with EvDlsym _ _ _ => true | _ => false end.

Definition is_call (e : event) : bool :=
  match e with EvCall _ _ => true | _ => false end.

(** The table obtained from [l] by the stores among [evs], in order. *)
Fixpoint apply_stores (evs : list event) (l : malloc_lut) : malloc_lut :=
  match evs with
  | [] => l
  | EvStore s p :: evs' => apply_stores evs' (Lut.set s p l)
  | _ :: evs' => apply_stores evs' l
  end.

Definition is_dlopen (e : event) : bool :=
  match e with EvDlopen _ _ _ => true | _ => false end.

(** What the caller of [c] receives when the implementation returned
    [v]: nothing from the two [void] functions. *)
Definition seen (c : call_request) (v : Z) : option Z :=
  if returns_void (sym_of c) then None else Some v.

(** The calls [cs] made straight to the implementations that table [l]
    points to, without the wrappers in between. *)
Fixpoint direct_calls {W} (env : environment W) (l : malloc_lut)
    (cs : list call_request) (w : W) : list (option Z) * W :=
  match cs with
  | [] => ([], w)
  | c :: cs' =>
      let r := ld_call env (Lut.get (sym_of c) l) (args_of c) w in
      let rs := direct_calls env l cs' (snd r) in
      (seen c (fst r) :: fst rs, snd rs)
  end.

Definition call_event (l : malloc_lut) (c : call_request) : event :=
  EvCall (Lut.get (sym_of c) l) (args_of c).

(** When [resolve_func] leaves a symbol unresolved, in terms of the three
    addresses. *)
Definition left_unresolved (next platform alternative : ptr) : Prop :=
  (alternative = NULL /\ next = platform) \/
  (next = NULL /\ (alternative = NULL \/ platform <> NULL)).

(** ** Sample environments *)

Fixpoint lookup (tab : list (string * ptr)) (symbol : string) : ptr :=
  match tab with
  | [] => NULL
  | (k, v) :: tab' => if String.eqb k symbol then v else lookup tab' symbol
  end.

(** A loader given by the handles of the two libraries and three symbol
    tables; the memory outside the shim is abstracted to a call counter.
    A lookup on a library handle is answered from that library's own
    table only, as for libraries without dependencies (a libmimalloc.so
    not linked against libc). *)
Definition table_env (libc_so mimalloc_so : ptr)
    (libc_tab mimalloc_tab next_tab : list (string * ptr))
  : environment nat :=
  {| ld_dlopen := fun file _ =>
       if String.eqb file "libc.so.6" then libc_so
       else if String.eqb file "libmimalloc.so" then mimalloc_so
       else NULL;
     ld_dlsym := fun h symbol =>
       match h with
       | RTLD_NEXT => lookup next_tab symbol
       | Lib p =>
           if p =? NULL then NULL
           else if p =? libc_so then lookup libc_tab symbol
           else if p =? mimalloc_so then lookup mimalloc_tab symbol
           else NULL
       end;
     ld_call := fun f args w => (f + fold_right Z.add 0 args, S w) |}.

(** glibc: no [reallocf], [malloc_size], [malloc_good_size], [cfree],
    [reallocarr] or [_posix_memalign]. *)
Definition glibc_tab : list (string * ptr) :=
  [ ("malloc", 1001); ("calloc", 1002); ("realloc", 1003); ("free", 1004);
    ("strdup", 1005); ("strndup", 1006); ("realpath", 1007);
    ("malloc_usable_size", 1010); ("valloc", 1013); ("pvalloc", 1014);
    ("reallocarray", 1015); ("memalign", 1017); ("aligned_alloc", 1018);
    ("posix_memalign", 1019) ].

(** An alternative allocator that exports neither [pvalloc] nor
    [reallocarr]. *)
Definition mimalloc_tab : list (string * ptr) :=
  [ ("malloc", 2001); ("calloc", 2002); ("realloc", 2003); ("free", 2004);
    ("strdup", 2005); ("strndup", 2006); ("realpath", 2007);
    ("reallocf", 2008); ("malloc_size", 2009);
    ("malloc_usable_size", 2010); ("malloc_good_size", 2011);
    ("cfree", 2012); ("valloc", 2013); ("reallocarray", 2015);
    ("memalign", 2017); ("aligned_alloc", 2018); ("posix_memalign", 2019);
    ("_posix_memalign", 2020) ].

(** A third allocator preloaded ahead of libc, claiming four symbols. *)
Definition interposer_tab : list (string * ptr) :=
  [ ("malloc", 3001); ("calloc", 3002); ("realloc", 3003); ("free", 3004) ].

Definition env_plain : environment nat :=
  table_env 100 200 glibc_tab mimalloc_tab glibc_tab.

Definition env_interposed : environment nat :=
  table_env 100 200 glibc_tab mimalloc_tab (interposer_tab ++ glibc_tab).

(** A loader that answers a lookup on a library handle the way glibc
    does: from the library itself and then from the libraries it depends
    on.  libmimalloc.so is linked against libc.so.6, so a symbol it does
    not export itself is answered with libc's address. *)
Definition linked_env (libc_so mimalloc_so : ptr)
    (libc_tab mimalloc_tab next_tab : list (string * ptr))
  : environment nat :=
  {| ld_dlopen := fun file _ =>
       if String.eqb file "libc.so.6" then libc_so
       else if String.eqb file "libmimalloc.so" then mimalloc_so
       else NULL;
     ld_dlsym := fun h symbol =>
       match h with
       | RTLD_NEXT => lookup next_tab symbol
       | Lib p =>
           if p =? NULL then NULL
           else if p =? libc_so then lookup libc_tab symbol
           else if p =? mimalloc_so then
             if lookup mimalloc_tab symbol =? NULL
             then lookup libc_tab symbol
             else lookup mimalloc_tab symbol
           else NULL
       end;
     ld_call := fun f args w => (f + fold_right Z.add 0 args, S w) |}.

(** The libraries of [env_plain] under that loader. *)
Definition env_linked : environment nat :=
  linked_env 100 200 glibc_tab mimalloc_tab glibc_tab.

(** An interposer that claims [malloc] alone. *)
Definition env_partial : environment nat :=
  table_env 100 200 glibc_tab mimalloc_tab (("malloc", 3001) :: glibc_tab).

Definition env_no_libc : environment nat :=
  table_env NULL 200 glibc_tab mimalloc_tab glibc_tab.

Definition env_no_mimalloc : environment nat :=
  table_env 100 NULL glibc_tab mimalloc_tab glibc_tab.

(** ** Basic facts *)

Lemma all_symbols_complete (s : symbol) : In s all_symbols.
Proof. destruct s; simpl; tauto. Qed.

Lemma all_symbols_nodup : NoDup all_symbols.
Proof.
  unfold all_symbols.
  repeat (constructor; [simpl; intuition discriminate|]).
  constructor.
Qed.

Lemma get_lut_of (f : string -> ptr) (s : symbol) :
  Lut.get s (lut_of f) = f (name s).
Proof. destruct s; reflexivity. Qed.

Lemma get_set_same (s : symbol) (p : ptr) (l : malloc_lut) :
  Lut.get s (Lut.set s p l) = p.
Proof. destruct s; reflexivity. Qed.

Lemma get_set_other (s s' : symbol) (p : ptr) (l : malloc_lut) :
  s <> s' -> Lut.get s' (Lut.set s p l) = Lut.get s' l.
Proof. destruct s, s'; intros Hne; try reflexivity; congruence. Qed.

Lemma decision_rule_code (next platform alternative : ptr) :
  (if (next =? platform) || (next =? alternative)
   then alternative else next)
  = decision_rule next platform alternative.
Proof.
  unfold decision_rule.
  destruct (Z.eq_dec next platform) as [E | E].
  - apply Z.eqb_eq in E. now rewrite E.
  - apply Z.eqb_neq in E. rewrite E. simpl.
    destruct (Z.eq_dec next alternative) as [E' | E'].
    + apply Z.eqb_eq in E'. now rewrite E'.
    + apply Z.eqb_neq in E'. now rewrite E'.
Qed.

Lemma decision_rule_claimed (next platform alternative : ptr) :
  next <> platform -> next <> alternative ->
  decision_rule next platform alternative = next.
Proof.
  intros H1 H2. unfold decision_rule.
  destruct (Z.eq_dec next platform); [contradiction|].
  destruct (Z.eq_dec next alternative); [contradiction|reflexivity].
Qed.

Lemma decision_rule_unclaimed (next platform alternative : ptr) :
  next = platform \/ next = alternative ->
  decision_rule next platform alternative = alternative.
Proof.
  intros H. unfold decision_rule.
  destruct (Z.eq_dec next platform); [reflexivity|].
  destruct (Z.eq_dec next alternative); [reflexivity|tauto].
Qed.

Lemma decision_rule_cases (next platform alternative : ptr) :
  decision_rule next platform alternative = alternative \/
  decision_rule next platform alternative = next.
Proof.
  unfold decision_rule.
  destruct (Z.eq_dec next platform); [now left|].
  destruct (Z.eq_dec next alternative); [now left|now right].
Qed.

(** ** [resolve_func], case by case *)

Section ResolveFacts.

Context {W : Type}.
Variable env : environment W.

Lemma resolve_func_loaded (symbol : string) (st : state W) :
  libc_handle env <> NULL ->
  mimalloc_handle env <> NULL ->
  resolve_func env symbol st =
    (Ret (selected env symbol),
     {| lut := lut st; world := world st;
        log := rev (resolve_events env symbol) ++ log st |}).
Proof.
  intros Hc Hm.
  apply Z.eqb_neq in Hc. apply Z.eqb_neq in Hm.
  unfold libc_handle in Hc. unfold mimalloc_handle in Hm.
  unfold resolve_func, bind, dlopen.
  cbv zeta. rewrite Hc. cbv beta iota. rewrite Hm.
  unfold dlsym, ret, emit. cbv beta iota zeta.
  unfold selected. rewrite <- decision_rule_code.
  fold (libc_handle env) (mimalloc_handle env).
  fold (libc_addr env symbol) (mimalloc_addr env symbol)
       (next_addr env symbol).
  destruct ((next_addr env symbol =? libc_addr env symbol)
            || (next_addr env symbol =? mimalloc_addr env symbol));
    reflexivity.
Qed.

Lemma resolve_func_no_libc (symbol : string) (st : state W) :
  libc_handle env = NULL ->
  resolve_func env symbol st =
    (Aborted,
     {| lut := lut st; world := world st;
        log := rev [ EvDlopen "libc.so.6" (Z.lor RTLD_NOW RTLD_NOLOAD) NULL;
                     EvStderr msg_no_libc; EvAbort ] ++ log st |}).
Proof.
  intros Hc. unfold libc_handle in Hc.
  unfold resolve_func, bind, dlopen.
  cbv zeta. rewrite Hc. reflexivity.
Qed.

Lemma resolve_func_no_mimalloc (symbol : string) (st : state W) :
  libc_handle env <> NULL ->
  mimalloc_handle env = NULL ->
  resolve_func env symbol st =
    (Aborted,
     {| lut := lut st; world := world st;
        log := rev [ EvDlopen "libc.so.6" (Z.lor RTLD_NOW RTLD_NOLOAD)
                       (libc_handle env);
                     EvDlopen "libmimalloc.so" RTLD_NOW NULL;
                     EvStderr msg_no_mimalloc; EvAbort ] ++ log st |}).
Proof.
  intros Hc Hm. apply Z.eqb_neq in Hc.
  unfold libc_handle in *. unfold mimalloc_handle in Hm.
  unfold resolve_func, bind, dlopen.
  cbv zeta. rewrite Hc. cbv beta iota. rewrite Hm. reflexivity.
Qed.

End ResolveFacts.

(** ** [init], case by case *)

Section InitFacts.

Context {W : Type}.
Variable env : environment W.

Ltac run_init :=
  unfold init;
  cbv beta iota zeta delta [bind dlsym store ret emit lut world log].

Lemma init_loaded (st : state W) :
  libc_handle env <> NULL ->
  mimalloc_handle env <> NULL ->
  init env st =
    (Ret tt,
     {| lut := lut_of (selected env); world := world st;
        log := rev (default_phase env ++ resolve_phase env
                    ++ install_phase env) ++ log st |}).
Proof.
  intros Hc Hm. run_init.
  repeat (rewrite (resolve_func_loaded env _ _ Hc Hm);
          cbv beta iota delta [lut world log]).
  reflexivity.
Qed.

Lemma init_no_libc (st : state W) :
  libc_handle env = NULL ->
  init env st =
    (Aborted,
     {| lut := lut_of (next_addr env); world := world st;
        log := rev (default_phase env
                    ++ [ EvDlopen "libc.so.6" (Z.lor RTLD_NOW RTLD_NOLOAD)
                           NULL;
                         EvStderr msg_no_libc; EvAbort ]) ++ log st |}).
Proof.
  intros Hc. run_init.
  rewrite (resolve_func_no_libc env _ _ Hc).
  cbv beta iota delta [lut world log].
  reflexivity.
Qed.

Lemma init_no_mimalloc (st : state W) :
  libc_handle env <> NULL ->
  mimalloc_handle env = NULL ->
  init env st =
    (Aborted,
     {| lut := lut_of (next_addr env); world := world st;
        log := rev (default_phase env
                    ++ [ EvDlopen "libc.so.6" (Z.lor RTLD_NOW RTLD_NOLOAD)
                           (libc_handle env);
                         EvDlopen "libmimalloc.so" RTLD_NOW NULL;
                         EvStderr msg_no_mimalloc; EvAbort ]) ++ log st |}).
Proof.
  intros Hc Hm. run_init.
  rewrite (resolve_func_no_mimalloc env _ _ Hc Hm).
  cbv beta iota delta [lut world log].
  reflexivity.
Qed.

End InitFacts.

(** ** The wrappers, case by case *)

Section WrapperFacts.

Context {W : Type}.
Variable env : environment W.

Ltac open_wrapper :=
  unfold invoke, valued, void,
    malloc, calloc, realloc, free, strdup, strndup, realpath, reallocf,
    malloc_size, malloc_usable_size, malloc_good_size, cfree, valloc,
    pvalloc, reallocarray, reallocarr, memalign, aligned_alloc,
    posix_memalign, _posix_memalign;
  unfold bind, load, check_defined.

Lemma invoke_unresolved (c : call_request) (st : state W) :
  Lut.get (sym_of c) (lut st) = NULL ->
  invoke env c st =
    (Aborted,
     {| lut := lut st; world := world st;
        log := EvAbort :: EvStderr (msg_undefined (sym_of c)) :: log st |}).
Proof.
  intros H.
  destruct c; cbv beta iota delta [sym_of] in H;
    open_wrapper; rewrite H; reflexivity.
Qed.

Lemma invoke_resolved (c : call_request) (st : state W) :
  Lut.get (sym_of c) (lut st) <> NULL ->
  invoke env c st =
    (Ret (if returns_void (sym_of c) then None
          else Some (fst (ld_call env (Lut.get (sym_of c) (lut st))
                            (args_of c) (world st)))),
     {| lut := lut st;
        world := snd (ld_call env (Lut.get (sym_of c) (lut st))
                        (args_of c) (world st));
        log := EvCall (Lut.get (sym_of c) (lut st)) (args_of c)
               :: log st |}).
Proof.
  intros H. apply Z.eqb_neq in H.
  destruct c; cbv beta iota delta [sym_of] in H;
    open_wrapper; rewrite H; reflexivity.
Qed.

Lemma invoke_lut (c : call_request) (st : state W) :
  lut (snd (invoke env c st)) = lut st.
Proof.
  destruct (Z.eq_dec (Lut.get (sym_of c) (lut st)) NULL) as [E | E].
  - now rewrite (invoke_unresolved c st E).
  - now rewrite (invoke_resolved c st E).
Qed.

Lemma run_calls_lut (cs : list call_request) :
  forall st : state W, lut (snd (run_calls env cs st)) = lut st.
Proof.
  induction cs as [| c cs IH]; intros st; [reflexivity|].
  cbn [run_calls]. unfold bind.
  pose proof (invoke_lut c st) as Hc.
  destruct (invoke env c st) as [[r |] st1]; cbn [snd] in Hc; [|exact Hc].
  specialize (IH st1).
  destruct (run_calls env cs st1) as [[rs |] st2];
    unfold ret; cbn [snd] in IH |- *; congruence.
Qed.

Lemma run_calls_resolved (cs : list call_request) :
  forall st : state W,
    (forall c, In c cs -> Lut.get (sym_of c) (lut st) <> NULL) ->
    exists rs st',
      run_calls env cs st = (Ret rs, st') /\ lut st' = lut st.
Proof.
  induction cs as [| c cs IH]; intros st Hres.
  - exists [], st. split; reflexivity.
  - cbn [run_calls]. unfold bind.
    rewrite (invoke_resolved c st (Hres c (or_introl eq_refl))).
    set (st1 := {| lut := lut st; world := _; log := _ |}).
    destruct (IH st1) as (rs & st2 & Hrun & Hlut).
    { intros c' Hin. apply Hres. now right. }
    rewrite Hrun. eexists _, st2. split; [reflexivity | exact Hlut].
Qed.

Lemma run_calls_app (cs1 cs2 : list call_request) :
  forall (st st1 : state W) rs1,
    run_calls env cs1 st = (Ret rs1, st1) ->
    run_calls env (cs1 ++ cs2) st =
      match run_calls env cs2 st1 with
      | (Ret rs2, st2) => (Ret (rs1 ++ rs2), st2)
      | (Aborted, st2) => (Aborted, st2)
      end.
Proof.
  induction cs1 as [| c cs1 IH]; intros st st1 rs1 Hrun.
  - cbn in Hrun. unfold ret in Hrun. injection Hrun as <- <-.
    cbn [app]. destruct (run_calls env cs2 st) as [[rs2 |] st2]; reflexivity.
  - cbn [app run_calls] in *. unfold bind in *.
    destruct (invoke env c st) as [[r |] sta]; [|discriminate].
    destruct (run_calls env cs1 sta) as [[rs |] stb] eqn:E; [|discriminate].
    unfold ret in Hrun. injection Hrun as <- <-.
    rewrite (IH _ _ _ E).
    destruct (run_calls env cs2 stb) as [[rs2 |] st2]; reflexivity.
Qed.

End WrapperFacts.

Lemma emitted_unique {W : Type} (st st' : state W) (evs evs' : list event) :
  emitted st st' evs -> emitted st st' evs' -> evs = evs'.
Proof.
  unfold emitted. intros H H'. rewrite H in H'.
  apply app_inv_tail in H'.
  apply (f_equal (@rev event)) in H'.
  now rewrite !rev_involutive in H'.
Qed.

Lemma default_phase_lookups {W : Type} (env : environment W) (e : event) :
  In e (default_phase env) ->
  exists s, e = EvDlsym RTLD_NEXT (name s) (next_addr env (name s)) \/
            e = EvStore s (next_addr env (name s)).
Proof.
  unfold default_phase. intros H.
  apply in_flat_map in H. destruct H as (s & _ & H).
  exists s. simpl in H. intuition auto.
Qed.

(** ** The resolution rule *)

(** C1: with both libraries loaded, [resolve_func] looks up the symbol in
    libc, in libmimalloc and through [RTLD_NEXT], and applies the
    three-way rule to these three addresses: when the "next" address is
    libc's or libmimalloc's it returns libmimalloc's address, otherwise it
    returns the "next" address unchanged.  The result depends on nothing
    but the three addresses: any other environment and state giving the
    same three addresses gives the same result. *)
Theorem resolve_func_decision_rule {W : Type} (env env' : environment W)
    (symbol : string) (st st' : state W) :
  libc_handle env <> NULL ->
  mimalloc_handle env <> NULL ->
  let next := next_addr env symbol in
  let platform := libc_addr env symbol in
  let alternative := mimalloc_addr env symbol in
  let result := fst (resolve_func env symbol st) in
  (next = platform \/ next = alternative -> result = Ret alternative) /\
  (next <> platform /\ next <> alternative -> result = Ret next) /\
  result = Ret (decision_rule next platform alternative) /\
  emitted st (snd (resolve_func env symbol st)) (resolve_events env symbol) /\
  (libc_handle env' <> NULL ->
   mimalloc_handle env' <> NULL ->
   next_addr env' symbol = next ->
   libc_addr env' symbol = platform ->
   mimalloc_addr env' symbol = alternative ->
   fst (resolve_func env' symbol st') = result).
Proof.
  intros Hc Hm next platform alternative result.
  subst result. rewrite (resolve_func_loaded env symbol st Hc Hm).
  cbn [fst snd]. unfold selected.
  fold next platform alternative.
  repeat split.
  - intros H. now rewrite (decision_rule_unclaimed _ _ _ H).
  - intros [H1 H2]. now rewrite (decision_rule_claimed _ _ _ H1 H2).
  - intros Hc' Hm' En Ep Ea.
    rewrite (resolve_func_loaded env' symbol st' Hc' Hm').
    cbn [fst]. unfold selected. now rewrite En, Ep, Ea.
Qed.

(** ** The forwarding surface *)

(** C2: whichever of the twenty exported functions is entered, if its
    member of [lut] is [NULL] the wrapper writes a diagnostic that starts
    with the name of that very symbol and aborts; these two events are all
    it does, so no call through a function pointer takes place and the
    memory outside the shim is untouched. *)
Theorem wrapper_unresolved_aborts {W : Type} (env : environment W)
    (c : call_request) (st : state W) :
  Lut.get (sym_of c) (lut st) = NULL ->
  let r := invoke env c st in
  fst r = Aborted /\
  emitted st (snd r) [EvStderr (msg_undefined (sym_of c)); EvAbort] /\
  String.prefix (name (sym_of c)) (msg_undefined (sym_of c)) = true /\
  (forall e, In e [EvStderr (msg_undefined (sym_of c)); EvAbort] ->
             is_call e = false) /\
  world (snd r) = world st.
Proof.
  intros H r. subst r. rewrite (invoke_unresolved env c st H).
  cbn [fst snd world]. repeat split.
  - destruct c; reflexivity.
  - intros e [<- | [<- | []]]; reflexivity.
Qed.

(** C3: whichever exported function is entered, if its member of [lut] is
    not [NULL] the wrapper makes exactly one call, through that member and
    with the caller's arguments in the caller's order, and returns what
    that call returned (nothing for the two [void] functions); the effect
    on memory is the effect of that call. *)
Theorem wrapper_forwards {W : Type} (env : environment W)
    (c : call_request) (st : state W) :
  Lut.get (sym_of c) (lut st) <> NULL ->
  let f := Lut.get (sym_of c) (lut st) in
  let direct := ld_call env f (args_of c) (world st) in
  let r := invoke env c st in
  fst r = Ret (if returns_void (sym_of c) then None
               else Some (fst direct)) /\
  world (snd r) = snd direct /\
  emitted st (snd r) [EvCall f (args_of c)].
Proof.
  intros H f direct r. subst r direct f.
  rewrite (invoke_resolved env c st H).
  cbn [fst snd world]. repeat split.
Qed.

(** C10: no exported function writes to [lut]: after any call, and after
    any sequence of calls, aborted or not, every member holds what it held
    before, and no store to the table is logged. *)
Theorem wrappers_preserve_lut {W : Type} (env : environment W)
    (st : state W) :
  (forall (c : call_request) (s : symbol),
      Lut.get s (lut (snd (invoke env c st))) = Lut.get s (lut st)) /\
  (forall (cs : list call_request) (s : symbol),
      Lut.get s (lut (snd (run_calls env cs st))) = Lut.get s (lut st)) /\
  (forall (c : call_request) (evs : list event),
      emitted st (snd (invoke env c st)) evs ->
      filter is_store evs = []).
Proof.
  repeat split.
  - intros c s. now rewrite invoke_lut.
  - intros cs s. now rewrite run_calls_lut.
  - intros c evs. unfold emitted.
    destruct (Z.eq_dec (Lut.get (sym_of c) (lut st)) NULL) as [E | E].
    + rewrite (invoke_unresolved env c st E). cbn [snd log]. intros Hl.
      change (EvAbort :: EvStderr (msg_undefined (sym_of c)) :: log st)
        with (rev [EvStderr (msg_undefined (sym_of c)); EvAbort] ++ log st)
        in Hl.
      apply app_inv_tail in Hl.
      apply (f_equal (@rev event)) in Hl. rewrite !rev_involutive in Hl.
      now subst evs.
    + rewrite (invoke_resolved env c st E). cbn [snd log]. intros Hl.
      change (EvCall (Lut.get (sym_of c) (lut st)) (args_of c) :: log st)
        with (rev [EvCall (Lut.get (sym_of c) (lut st)) (args_of c)]
              ++ log st) in Hl.
      apply app_inv_tail in Hl.
      apply (f_equal (@rev event)) in Hl. rewrite !rev_involutive in Hl.
      now subst evs.
Qed.

(** ** Initialisation *)

(** C4: [init] first stores in each of the twenty members the address
    found through [RTLD_NEXT]; only then does the first [resolve_func]
    start (with its [dlopen] of libc), and at that moment the table holds
    exactly these temporary defaults.  When both libraries are loaded the
    run continues with the twenty resolutions, during which nothing is
    stored, and only after the last of them come the twenty stores of the
    resolved addresses. *)
Theorem init_bootstrap_order {W : Type} (env : environment W)
    (st : state W) :
  let r := init env st in
  (exists rest,
      emitted st (snd r)
        (default_phase env
         ++ EvDlopen "libc.so.6" (Z.lor RTLD_NOW RTLD_NOLOAD)
              (libc_handle env) :: rest)) /\
  (forall s, In (EvStore s (next_addr env (name s))) (default_phase env)) /\
  apply_stores (default_phase env) (lut st) = lut_of (next_addr env) /\
  filter is_store (resolve_phase env) = [] /\
  (libc_handle env <> NULL ->
   mimalloc_handle env <> NULL ->
   fst r = Ret tt /\
   emitted st (snd r)
     (default_phase env ++ resolve_phase env ++ install_phase env) /\
   lut (snd r) = lut_of (selected env) /\
   lut (snd r) =
     apply_stores
       (default_phase env ++ resolve_phase env ++ install_phase env)
       (lut st)).
Proof.
  intros r. subst r. unfold emitted. repeat split.
  - destruct (Z.eq_dec (libc_handle env) NULL) as [Hc | Hc].
    + rewrite (init_no_libc env st Hc). rewrite Hc.
      eexists. reflexivity.
    + destruct (Z.eq_dec (mimalloc_handle env) NULL) as [Hm | Hm].
      * rewrite (init_no_mimalloc env st Hc Hm). eexists. reflexivity.
      * rewrite (init_loaded env st Hc Hm).
        exists (tl (resolve_phase env) ++ install_phase env).
        reflexivity.
  - intros s. unfold default_phase. apply in_flat_map.
    exists s. split; [apply all_symbols_complete | simpl; tauto].
  - now rewrite (init_loaded env st H H0).
  - now rewrite (init_loaded env st H H0).
  - now rewrite (init_loaded env st H H0).
  - now rewrite (init_loaded env st H H0).
Qed.

(** C7: when [dlopen] with [RTLD_NOLOAD] reports libc.so.6 as not loaded,
    the process writes a diagnostic that starts with the library name and
    is ended by [abort], hence with a non-zero status.  This happens in
    the first [resolve_func], before it looks up anything: [resolve_func]
    does no [dlsym] at all, no symbol is ever looked up in a library, and
    no resolved address is stored; all that precedes the check are the
    temporary defaults of [init], which the table still holds. *)
Theorem init_aborts_without_libc {W : Type} (env : environment W)
    (st : state W) :
  libc_handle env = NULL ->
  let r := init env st in
  let check :=
    [ EvDlopen "libc.so.6" (Z.lor RTLD_NOW RTLD_NOLOAD) NULL;
      EvStderr msg_no_libc; EvAbort ] in
  fst r = Aborted /\
  (exists n, exit_status (fst r) = Some n /\ n <> 0) /\
  emitted st (snd r) (default_phase env ++ check) /\
  String.prefix "libc.so.6" msg_no_libc = true /\
  filter is_dlsym check = [] /\
  (forall symbol st0,
      fst (resolve_func env symbol st0) = Aborted /\
      emitted st0 (snd (resolve_func env symbol st0)) check) /\
  (forall h symbol p,
      ~ In (EvDlsym (Lib h) symbol p) (default_phase env ++ check)) /\
  lut (snd r) = lut_of (next_addr env).
Proof.
  intros Hc r check. subst r check.
  rewrite (init_no_libc env st Hc). cbn [fst snd lut].
  repeat split.
  - exists (128 + SIGABRT). split; [reflexivity | discriminate].
  - now rewrite (resolve_func_no_libc env _ _ Hc).
  - now rewrite (resolve_func_no_libc env _ _ Hc).
  - intros h symbol p Hin. apply in_app_or in Hin.
    destruct Hin as [Hin | Hin].
    + apply default_phase_lookups in Hin.
      destruct Hin as (s & [E | E]); discriminate E.
    + simpl in Hin. intuition discriminate.
Qed.

(** C8: when [dlopen] of libmimalloc.so fails, [init] is ended by [abort],
    hence with a non-zero status.  With libc loaded the failure is met in
    the first [resolve_func], right after the temporary defaults and the
    libc check, and the diagnostic names libmimalloc.so; in every case, a
    run in which the failed load is observed also shows that diagnostic. *)
Theorem init_aborts_without_mimalloc {W : Type} (env : environment W)
    (st : state W) :
  mimalloc_handle env = NULL ->
  let r := init env st in
  fst r = Aborted /\
  (exists n, exit_status (fst r) = Some n /\ n <> 0) /\
  String.index 0 "libmimalloc.so" msg_no_mimalloc = Some 15%nat /\
  (libc_handle env <> NULL ->
   emitted st (snd r)
     (default_phase env
      ++ [ EvDlopen "libc.so.6" (Z.lor RTLD_NOW RTLD_NOLOAD)
             (libc_handle env);
           EvDlopen "libmimalloc.so" RTLD_NOW NULL;
           EvStderr msg_no_mimalloc; EvAbort ])) /\
  (forall evs,
      emitted st (snd r) evs ->
      In (EvDlopen "libmimalloc.so" RTLD_NOW NULL) evs ->
      In (EvStderr msg_no_mimalloc) evs).
Proof.
  intros Hm r. subst r.
  destruct (Z.eq_dec (libc_handle env) NULL) as [Hc | Hc].
  - rewrite (init_no_libc env st Hc). cbn [fst snd].
    repeat split.
    + exists (128 + SIGABRT). split; [reflexivity | discriminate].
    + intros Hc'. contradiction.
    + intros evs Hev Hin.
      assert (E : evs =
                  default_phase env
                  ++ [ EvDlopen "libc.so.6" (Z.lor RTLD_NOW RTLD_NOLOAD)
                         NULL;
                       EvStderr msg_no_libc; EvAbort ]).
      { eapply emitted_unique; [exact Hev | reflexivity]. }
      subst evs. apply in_app_or in Hin. destruct Hin as [Hin | Hin].
      * apply default_phase_lookups in Hin.
        destruct Hin as (s & [E | E]); discriminate E.
      * simpl in Hin.
        destruct Hin as [E | [E | [E | []]]]; discriminate E.
  - rewrite (init_no_mimalloc env st Hc Hm). cbn [fst snd].
    repeat split.
    + exists (128 + SIGABRT). split; [reflexivity | discriminate].
    + intros evs Hev _.
      assert (E : evs =
                  default_phase env
                  ++ [ EvDlopen "libc.so.6" (Z.lor RTLD_NOW RTLD_NOLOAD)
                         (libc_handle env);
                       EvDlopen "libmimalloc.so" RTLD_NOW NULL;
                       EvStderr msg_no_mimalloc; EvAbort ]).
      { eapply emitted_unique; [exact Hev | reflexivity]. }
      subst evs. apply in_or_app. right. simpl. tauto.
Qed.

(** C9: whatever the loader answers, the address [init] leaves in a member
    of [lut] is libmimalloc's address for that symbol or the [RTLD_NEXT]
    address for it.  libc's own address only takes part in the comparison:
    a member can hold it only when it coincides with one of the other two.
    With both libraries loaded the member holds what the decision rule
    selects. *)
Theorem installed_address_provenance {W : Type} (env : environment W)
    (st : state W) (s : symbol) :
  let installed := Lut.get s (lut (snd (init env st))) in
  (installed = mimalloc_addr env (name s) \/
   installed = next_addr env (name s)) /\
  (installed = libc_addr env (name s) ->
   libc_addr env (name s) = mimalloc_addr env (name s) \/
   libc_addr env (name s) = next_addr env (name s)) /\
  (libc_handle env <> NULL ->
   mimalloc_handle env <> NULL ->
   fst (init env st) = Ret tt /\
   installed =
     decision_rule (next_addr env (name s)) (libc_addr env (name s))
       (mimalloc_addr env (name s))).
Proof.
  intros installed.
  assert (Hor : installed = mimalloc_addr env (name s) \/
                installed = next_addr env (name s)).
  { subst installed.
    destruct (Z.eq_dec (libc_handle env) NULL) as [Hc | Hc].
    - rewrite (init_no_libc env st Hc). cbn [snd lut].
      rewrite get_lut_of. now right.
    - destruct (Z.eq_dec (mimalloc_handle env) NULL) as [Hm | Hm].
      + rewrite (init_no_mimalloc env st Hc Hm). cbn [snd lut].
        rewrite get_lut_of. now right.
      + rewrite (init_loaded env st Hc Hm). cbn [snd lut].
        rewrite get_lut_of. apply decision_rule_cases. }
  split; [exact Hor|]. split.
  - intros E. rewrite <- E. exact Hor.
  - intros Hc Hm. subst installed.
    rewrite (init_loaded env st Hc Hm). cbn [fst snd lut].
    rewrite get_lut_of. split; reflexivity.
Qed.

(** ** Unresolved symbols *)

Section LazyFailure.

Context {W : Type}.
Variable env : environment W.
Hypothesis libc_loaded : libc_handle env <> NULL.
Hypothesis mimalloc_loaded : mimalloc_handle env <> NULL.

Lemma process_loaded (cs : list call_request) (st : state W) :
  process env cs st = run_calls env cs (snd (init env st)).
Proof.
  unfold process, bind.
  now rewrite (init_loaded env st libc_loaded mimalloc_loaded).
Qed.

Lemma init_member (s : symbol) (st : state W) :
  Lut.get s (lut (snd (init env st))) = selected env (name s).
Proof.
  rewrite (init_loaded env st libc_loaded mimalloc_loaded).
  cbn [snd lut]. apply get_lut_of.
Qed.

Lemma process_aborts_at_unresolved (s : symbol) (st : state W)
    (cs : list call_request) (c : call_request)
    (rest : list call_request) :
  selected env (name s) = NULL ->
  (forall c', In c' cs ->
              Lut.get (sym_of c') (lut (snd (init env st))) <> NULL) ->
  sym_of c = s ->
  exists rs st2,
    process env cs st = (Ret rs, st2) /\
    process env (cs ++ c :: rest) st =
      (Aborted,
       {| lut := lut st2; world := world st2;
          log := EvAbort :: EvStderr (msg_undefined s) :: log st2 |}).
Proof.
  intros Hsel Hres Hc.
  rewrite !process_loaded.
  destruct (run_calls_resolved env cs _ Hres) as (rs & st2 & Hrun & Hlut).
  exists rs, st2. split; [exact Hrun|].
  rewrite (run_calls_app env cs (c :: rest) _ _ _ Hrun).
  cbn [run_calls]. unfold bind.
  rewrite invoke_unresolved.
  - now rewrite Hc.
  - rewrite Hlut, Hc, init_member. exact Hsel.
Qed.

Lemma first_call_unresolved (s : symbol) (st : state W)
    (c : call_request) (rest : list call_request) :
  selected env (name s) = NULL ->
  sym_of c = s ->
  fst (process env (c :: rest) st) = Aborted /\
  emitted (snd (init env st)) (snd (process env (c :: rest) st))
    [EvStderr (msg_undefined s); EvAbort].
Proof.
  intros Hsel Hc.
  pose proof (init_member s st) as Hmem. rewrite Hsel in Hmem.
  rewrite process_loaded. revert Hmem.
  generalize (snd (init env st)). intros st1 Hmem.
  cbn [run_calls]. unfold bind.
  rewrite invoke_unresolved by (now rewrite Hc).
  rewrite Hc. split; reflexivity.
Qed.

End LazyFailure.

(** C5: with both libraries loaded, a symbol for which every lookup fails
    (in libc, in libmimalloc and through [RTLD_NEXT]) resolves to [NULL]
    without aborting, and [init] completes.  Any sequence of calls to
    symbols whose members were resolved runs to its end; the process is
    aborted by the first call to the unresolved symbol, with the
    diagnostic for that symbol as its last output. *)
Theorem absent_symbol_fails_lazily {W : Type} (env : environment W)
    (s : symbol) (st : state W) :
  libc_handle env <> NULL ->
  mimalloc_handle env <> NULL ->
  libc_addr env (name s) = NULL ->
  mimalloc_addr env (name s) = NULL ->
  next_addr env (name s) = NULL ->
  let table := lut (snd (init env st)) in
  (forall st0, fst (resolve_func env (name s) st0) = Ret NULL) /\
  fst (init env st) = Ret tt /\
  Lut.get s table = NULL /\
  (forall cs,
      (forall c, In c cs -> Lut.get (sym_of c) table <> NULL) ->
      exists rs, fst (process env cs st) = Ret rs) /\
  (forall cs c rest,
      (forall c', In c' cs -> Lut.get (sym_of c') table <> NULL) ->
      sym_of c = s ->
      exists rs st2,
        process env cs st = (Ret rs, st2) /\
        fst (process env (cs ++ c :: rest) st) = Aborted /\
        emitted st2 (snd (process env (cs ++ c :: rest) st))
          [EvStderr (msg_undefined s); EvAbort]).
Proof.
  intros Hc Hm El Em En table.
  assert (Hsel : selected env (name s) = NULL).
  { unfold selected. rewrite El, Em, En. reflexivity. }
  subst table. repeat split.
  - intros st0. rewrite (resolve_func_loaded env _ st0 Hc Hm).
    cbn [fst]. now rewrite Hsel.
  - now rewrite (init_loaded env st Hc Hm).
  - now rewrite (init_member env Hc Hm).
  - intros cs Hres. rewrite (process_loaded env Hc Hm).
    destruct (run_calls_resolved env cs _ Hres) as (rs & st2 & Hrun & _).
    exists rs. now rewrite Hrun.
  - intros cs c rest Hres Hs.
    destruct (process_aborts_at_unresolved env Hc Hm s st cs c rest
                Hsel Hres Hs) as (rs & st2 & Hcs & Hab).
    exists rs, st2. rewrite Hab. repeat split. exact Hcs.
Qed.

(** C6, as amended: with both libraries loaded, a symbol that libc
    defines, for which the lookup through libmimalloc's handle returns
    [NULL] and that nobody else claims (the [RTLD_NEXT] address is libc's)
    resolves to [NULL]: libc's address is dropped, the member of [lut] is
    [NULL] after [init], and the first call to the symbol aborts the
    process with the diagnostic for it. *)
Theorem platform_only_symbol_unusable {W : Type} (env : environment W)
    (s : symbol) (st : state W) :
  libc_handle env <> NULL ->
  mimalloc_handle env <> NULL ->
  libc_addr env (name s) <> NULL ->
  mimalloc_addr env (name s) = NULL ->
  next_addr env (name s) = libc_addr env (name s) ->
  (forall st0, fst (resolve_func env (name s) st0) = Ret NULL) /\
  fst (init env st) = Ret tt /\
  Lut.get s (lut (snd (init env st))) = NULL /\
  (forall c rest,
      sym_of c = s ->
      fst (process env (c :: rest) st) = Aborted /\
      emitted (snd (init env st)) (snd (process env (c :: rest) st))
        [EvStderr (msg_undefined s); EvAbort]).
Proof.
  intros Hc Hm Hl Em En.
  assert (Hsel : selected env (name s) = NULL).
  { unfold selected. rewrite <- Em. apply decision_rule_unclaimed.
    now left. }
  repeat split.
  - intros st0. rewrite (resolve_func_loaded env _ st0 Hc Hm).
    cbn [fst]. now rewrite Hsel.
  - now rewrite (init_loaded env st Hc Hm).
  - now rewrite (init_member env Hc Hm).
  - now apply (first_call_unresolved env Hc Hm s st c rest Hsel).
  - now apply (first_call_unresolved env Hc Hm s st c rest Hsel).
Qed.

(** ** The statements at sample environments *)

Lemma resolve_func_decision_rule_witness :
  libc_handle env_interposed <> NULL /\
  mimalloc_handle env_interposed <> NULL /\
  fst (resolve_func env_interposed "malloc" (boot 0%nat)) = Ret 3001 /\
  fst (resolve_func env_interposed "strdup" (boot 0%nat)) = Ret 2005.
Proof.
  assert (Hc : libc_handle env_interposed <> NULL)
    by (vm_compute; discriminate).
  assert (Hm : mimalloc_handle env_interposed <> NULL)
    by (vm_compute; discriminate).
  split; [exact Hc|]. split; [exact Hm|]. split.
  - destruct (resolve_func_decision_rule env_interposed env_interposed
                "malloc" (boot 0%nat) (boot 0%nat) Hc Hm)
      as (_ & Hnext & _).
    apply Hnext. split; vm_compute; discriminate.
  - destruct (resolve_func_decision_rule env_interposed env_interposed
                "strdup" (boot 0%nat) (boot 0%nat) Hc Hm)
      as (Halt & _).
    apply Halt. left. reflexivity.
Defined.

Lemma wrapper_unresolved_aborts_witness :
  Lut.get (sym_of (call_malloc 16)) (lut (boot 0%nat)) = NULL /\
  fst (invoke env_plain (call_malloc 16) (boot 0%nat)) = Aborted /\
  log (snd (invoke env_plain (call_malloc 16) (boot 0%nat)))
  = [EvAbort; EvStderr ("malloc() is not defined" ++ nl)%string].
Proof.
  assert (H : Lut.get (sym_of (call_malloc 16)) (lut (boot 0%nat)) = NULL)
    by reflexivity.
  split; [exact H|].
  destruct (wrapper_unresolved_aborts env_plain (call_malloc 16)
              (boot 0%nat) H) as (Hab & Hev & _).
  split; [exact Hab | exact Hev].
Defined.

Lemma wrapper_forwards_witness :
  Lut.get (sym_of (call_calloc 4 8))
    (lut (snd (init env_plain (boot 0%nat)))) <> NULL /\
  fst (invoke env_plain (call_calloc 4 8)
         (snd (init env_plain (boot 0%nat))))
  = Ret (Some (fst (ld_call env_plain 2002 [4; 8] 0%nat))).
Proof.
  assert (H : Lut.get (sym_of (call_calloc 4 8))
                (lut (snd (init env_plain (boot 0%nat)))) <> NULL)
    by (vm_compute; discriminate).
  split; [exact H|].
  destruct (wrapper_forwards env_plain (call_calloc 4 8)
              (snd (init env_plain (boot 0%nat))) H) as (Hret & _).
  exact Hret.
Defined.

Lemma init_bootstrap_order_witness :
  libc_handle env_plain <> NULL /\
  mimalloc_handle env_plain <> NULL /\
  fst (init env_plain (boot 0%nat)) = Ret tt /\
  log (snd (init env_plain (boot 0%nat)))
  = rev (default_phase env_plain ++ resolve_phase env_plain
         ++ install_phase env_plain).
Proof.
  assert (Hc : libc_handle env_plain <> NULL)
    by (vm_compute; discriminate).
  assert (Hm : mimalloc_handle env_plain <> NULL)
    by (vm_compute; discriminate).
  split; [exact Hc|]. split; [exact Hm|].
  destruct (init_bootstrap_order env_plain (boot 0%nat))
    as (_ & _ & _ & _ & Hfull).
  destruct (Hfull Hc Hm) as (Hret & Hev & _).
  split; [exact Hret|].
  unfold emitted in Hev. rewrite Hev. apply app_nil_r.
Defined.

Lemma absent_symbol_fails_lazily_witness :
  libc_handle env_plain <> NULL /\
  mimalloc_handle env_plain <> NULL /\
  libc_addr env_plain "reallocarr" = NULL /\
  mimalloc_addr env_plain "reallocarr" = NULL /\
  next_addr env_plain "reallocarr" = NULL /\
  fst (init env_plain (boot 0%nat)) = Ret tt /\
  fst (process env_plain
         ([call_malloc 16; call_free 2017] ++ [call_reallocarr 0 4 8])
         (boot 0%nat)) = Aborted.
Proof.
  assert (Hc : libc_handle env_plain <> NULL)
    by (vm_compute; discriminate).
  assert (Hm : mimalloc_handle env_plain <> NULL)
    by (vm_compute; discriminate).
  assert (El : libc_addr env_plain (name sym_reallocarr) = NULL)
    by reflexivity.
  assert (Em : mimalloc_addr env_plain (name sym_reallocarr) = NULL)
    by reflexivity.
  assert (En : next_addr env_plain (name sym_reallocarr) = NULL)
    by reflexivity.
  destruct (absent_symbol_fails_lazily env_plain sym_reallocarr
              (boot 0%nat) Hc Hm El Em En) as (_ & Hinit & _ & _ & Hlazy).
  repeat (split; [assumption|]).
  destruct (Hlazy [call_malloc 16; call_free 2017] (call_reallocarr 0 4 8)
              []) as (rs & st2 & _ & Hab & _).
  - intros c' [<- | [<- | []]]; vm_compute; discriminate.
  - reflexivity.
  - exact Hab.
Defined.

Lemma platform_only_symbol_unusable_witness :
  libc_handle env_plain <> NULL /\
  mimalloc_handle env_plain <> NULL /\
  libc_addr env_plain "pvalloc" <> NULL /\
  mimalloc_addr env_plain "pvalloc" = NULL /\
  next_addr env_plain "pvalloc" = libc_addr env_plain "pvalloc" /\
  fst (resolve_func env_plain "pvalloc" (boot 0%nat)) = Ret NULL /\
  fst (process env_plain [call_pvalloc 4096] (boot 0%nat)) = Aborted.
Proof.
  assert (Hc : libc_handle env_plain <> NULL)
    by (vm_compute; discriminate).
  assert (Hm : mimalloc_handle env_plain <> NULL)
    by (vm_compute; discriminate).
  assert (Hl : libc_addr env_plain (name sym_pvalloc) <> NULL)
    by (vm_compute; discriminate).
  assert (Em : mimalloc_addr env_plain (name sym_pvalloc) = NULL)
    by reflexivity.
  assert (En : next_addr env_plain (name sym_pvalloc)
               = libc_addr env_plain (name sym_pvalloc))
    by reflexivity.
  destruct (platform_only_symbol_unusable env_plain sym_pvalloc
              (boot 0%nat) Hc Hm Hl Em En) as (Hres & _ & _ & Hcall).
  repeat (split; [assumption|]).
  split; [apply Hres|].
  destruct (Hcall (call_pvalloc 4096) [] eq_refl) as (Hab & _).
  exact Hab.
Defined.

Lemma init_aborts_without_libc_witness :
  libc_handle env_no_libc = NULL /\
  fst (init env_no_libc (boot 0%nat)) = Aborted /\
  exit_status (fst (init env_no_libc (boot 0%nat))) = Some 134 /\
  hd EvAbort (tl (log (snd (init env_no_libc (boot 0%nat)))))
  = EvStderr ("libc.so.6 not loaded" ++ nl)%string.
Proof.
  assert (Hc : libc_handle env_no_libc = NULL) by reflexivity.
  split; [exact Hc|].
  destruct (init_aborts_without_libc env_no_libc (boot 0%nat) Hc)
    as (Hab & _ & Hev & _).
  split; [exact Hab|]. split; [now rewrite Hab|].
  unfold emitted in Hev. rewrite Hev. reflexivity.
Defined.

Lemma init_aborts_without_mimalloc_witness :
  mimalloc_handle env_no_mimalloc = NULL /\
  libc_handle env_no_mimalloc <> NULL /\
  fst (init env_no_mimalloc (boot 0%nat)) = Aborted /\
  hd EvAbort (tl (log (snd (init env_no_mimalloc (boot 0%nat)))))
  = EvStderr ("Failed to load libmimalloc.so" ++ nl)%string.
Proof.
  assert (Hm : mimalloc_handle env_no_mimalloc = NULL) by reflexivity.
  assert (Hc : libc_handle env_no_mimalloc <> NULL)
    by (vm_compute; discriminate).
  split; [exact Hm|]. split; [exact Hc|].
  destruct (init_aborts_without_mimalloc env_no_mimalloc (boot 0%nat) Hm)
    as (Hab & _ & _ & Hev & _).
  split; [exact Hab|].
  specialize (Hev Hc). unfold emitted in Hev. rewrite Hev. reflexivity.
Defined.

Lemma installed_address_provenance_witness :
  libc_handle env_interposed <> NULL /\
  mimalloc_handle env_interposed <> NULL /\
  Lut.get sym_free (lut (snd (init env_interposed (boot 0%nat)))) = 3004 /\
  Lut.get sym_valloc (lut (snd (init env_interposed (boot 0%nat)))) = 2013.
Proof.
  assert (Hc : libc_handle env_interposed <> NULL)
    by (vm_compute; discriminate).
  assert (Hm : mimalloc_handle env_interposed <> NULL)
    by (vm_compute; discriminate).
  split; [exact Hc|]. split; [exact Hm|]. split.
  - destruct (installed_address_provenance env_interposed (boot 0%nat)
                sym_free) as (_ & _ & Hsel).
    destruct (Hsel Hc Hm) as (_ & E). exact E.
  - destruct (installed_address_provenance env_interposed (boot 0%nat)
                sym_valloc) as (_ & _ & Hsel).
    destruct (Hsel Hc Hm) as (_ & E). exact E.
Defined.

Lemma wrappers_preserve_lut_witness :
  emitted (snd (init env_plain (boot 0%nat)))
    (snd (invoke env_plain (call_free 2017)
            (snd (init env_plain (boot 0%nat)))))
    [EvCall 2004 [2017]] /\
  filter is_store [EvCall 2004 [2017]] = [] /\
  Lut.get sym_free
    (lut (snd (invoke env_plain (call_free 2017)
                 (snd (init env_plain (boot 0%nat)))))) = 2004.
Proof.
  assert (Hev : emitted (snd (init env_plain (boot 0%nat)))
                  (snd (invoke env_plain (call_free 2017)
                          (snd (init env_plain (boot 0%nat)))))
                  [EvCall 2004 [2017]])
    by (unfold emitted; vm_compute; reflexivity).
  destruct (wrappers_preserve_lut env_plain
              (snd (init env_plain (boot 0%nat)))) as (Hcall & _ & Hlog).
  split; [exact Hev|]. split.
  - exact (Hlog (call_free 2017) _ Hev).
  - rewrite (Hcall (call_free 2017) sym_free). vm_compute. reflexivity.
Defined.

(** ** Further properties of the program *)

Lemma decision_rule_null_iff (next platform alternative : ptr) :
  decision_rule next platform alternative = NULL <->
  left_unresolved next platform alternative.
Proof.
  unfold decision_rule, left_unresolved.
  destruct (Z.eq_dec next platform) as [E1 | E1];
    [| destruct (Z.eq_dec next alternative) as [E2 | E2]].
  - subst platform. split.
    + intros ->. now left.
    + intros [[H _] | [H1 [H2 | H2]]]; congruence.
  - subst alternative. split.
    + intros H. right. split; [exact H | now left].
    + intros [[H _] | [H _]]; exact H.
  - split.
    + intros H. right. split; [exact H | right; congruence].
    + intros [[_ H] | [H _]]; [contradiction | exact H].
Qed.

Lemma resolve_phase_events {W : Type} (env : environment W) (e : event) :
  In e (resolve_phase env) ->
  exists s, In e (resolve_events env (name s)).
Proof.
  unfold resolve_phase. intros H.
  apply in_flat_map in H. destruct H as (s & _ & H). now exists s.
Qed.

Lemma install_phase_stores {W : Type} (env : environment W) (e : event) :
  In e (install_phase env) ->
  exists s, e = EvStore s (selected env (name s)).
Proof.
  unfold install_phase. intros H.
  apply in_flat_map in H. destruct H as (s & _ & H).
  exists s. simpl in H. intuition auto.
Qed.

Section CallFacts.

Context {W : Type}.
Variable env : environment W.

Lemma run_calls_direct (cs : list call_request) :
  forall st : state W,
    (forall c, In c cs -> Lut.get (sym_of c) (lut st) <> NULL) ->
    run_calls env cs st =
      (Ret (fst (direct_calls env (lut st) cs (world st))),
       {| lut := lut st;
          world := snd (direct_calls env (lut st) cs (world st));
          log := rev (map (call_event (lut st)) cs) ++ log st |}).
Proof.
  induction cs as [| c cs IH]; intros st Hres.
  - destruct st. reflexivity.
  - cbn [run_calls]. unfold bind.
    rewrite (invoke_resolved env c st (Hres c (or_introl eq_refl))).
    rewrite IH by (intros c' Hin; apply Hres; now right).
    cbn [lut world log direct_calls map rev fst snd]. unfold ret, seen.
    rewrite <- app_assoc. reflexivity.
Qed.

Hypothesis libc_loaded : libc_handle env <> NULL.
Hypothesis mimalloc_loaded : mimalloc_handle env <> NULL.

Lemma process_direct (cs : list call_request) (st : state W) :
  (forall c, In c cs -> selected env (name (sym_of c)) <> NULL) ->
  process env cs st =
    (Ret (fst (direct_calls env (lut_of (selected env)) cs (world st))),
     {| lut := lut_of (selected env);
        world := snd (direct_calls env (lut_of (selected env)) cs
                        (world st));
        log := rev (map (call_event (lut_of (selected env))) cs)
               ++ rev (default_phase env ++ resolve_phase env
                       ++ install_phase env) ++ log st |}).
Proof.
  intros Hres. unfold process, bind.
  rewrite (init_loaded env st libc_loaded mimalloc_loaded).
  rewrite run_calls_direct.
  - reflexivity.
  - intros c Hin. cbn [lut]. rewrite get_lut_of. now apply Hres.
Qed.

Lemma init_log (st : state W) :
  log (snd (init env st)) =
    rev (default_phase env ++ resolve_phase env ++ install_phase env)
    ++ log st.
Proof. now rewrite (init_loaded env st libc_loaded mimalloc_loaded). Qed.

End CallFacts.

(** X1: once [init] has succeeded, a run of calls to resolved symbols is
    the same run made directly on the implementations the table points
    to: same results in the same order, same final memory, each call
    seeing the memory left by the one before, one call event per request
    and nothing else; the table is the one [init] installed. *)
Theorem shim_is_transparent {W : Type} (env : environment W)
    (cs : list call_request) (st : state W) :
  libc_handle env <> NULL ->
  mimalloc_handle env <> NULL ->
  (forall c, In c cs -> selected env (name (sym_of c)) <> NULL) ->
  let table := lut_of (selected env) in
  let direct := direct_calls env table cs (world st) in
  let r := process env cs st in
  fst r = Ret (fst direct) /\
  world (snd r) = snd direct /\
  lut (snd r) = table /\
  emitted (snd (init env st)) (snd r) (map (call_event table) cs).
Proof.
  intros Hc Hm Hres table direct r. subst r direct table.
  unfold emitted. rewrite (init_log env Hc Hm).
  rewrite (process_direct env Hc Hm cs st Hres).
  cbn [fst snd lut world log]. repeat split.
Qed.

(** X2: with both libraries loaded, a symbol nobody else claims (its
    [RTLD_NEXT] address is libc's or libmimalloc's) and that libmimalloc
    exports is served by libmimalloc: the first call after [init] is one
    call to libmimalloc's address with the caller's arguments, and the
    caller gets its result. *)
Theorem unclaimed_symbol_served_by_mimalloc {W : Type}
    (env : environment W) (c : call_request) (st : state W) :
  libc_handle env <> NULL ->
  mimalloc_handle env <> NULL ->
  next_addr env (name (sym_of c)) = libc_addr env (name (sym_of c)) \/
  next_addr env (name (sym_of c)) = mimalloc_addr env (name (sym_of c)) ->
  mimalloc_addr env (name (sym_of c)) <> NULL ->
  let f := mimalloc_addr env (name (sym_of c)) in
  let direct := ld_call env f (args_of c) (world st) in
  let r := process env [c] st in
  fst r = Ret [seen c (fst direct)] /\
  world (snd r) = snd direct /\
  emitted (snd (init env st)) (snd r) [EvCall f (args_of c)].
Proof.
  intros Hc Hm Hun Hmi f direct r. subst r direct f.
  assert (Hsel : selected env (name (sym_of c))
                 = mimalloc_addr env (name (sym_of c))).
  { unfold selected. now apply decision_rule_unclaimed. }
  unfold emitted. rewrite (init_log env Hc Hm).
  rewrite (process_direct env Hc Hm [c] st).
  - cbn [fst snd world log direct_calls map rev app]. unfold call_event.
    rewrite get_lut_of, Hsel. repeat split.
  - intros c' [<- | []]. now rewrite Hsel.
Qed.

(** X3: with both libraries loaded, a symbol that a third party has
    claimed (its [RTLD_NEXT] address is neither libc's nor libmimalloc's)
    stays with that party: the first call after [init] is one call to the
    [RTLD_NEXT] address, and libmimalloc's implementation is not called,
    whether libmimalloc exports the symbol or not. *)
Theorem claimed_symbol_served_by_interposer {W : Type}
    (env : environment W) (c : call_request) (st : state W) :
  libc_handle env <> NULL ->
  mimalloc_handle env <> NULL ->
  next_addr env (name (sym_of c)) <> libc_addr env (name (sym_of c)) ->
  next_addr env (name (sym_of c)) <> mimalloc_addr env (name (sym_of c)) ->
  next_addr env (name (sym_of c)) <> NULL ->
  let f := next_addr env (name (sym_of c)) in
  let direct := ld_call env f (args_of c) (world st) in
  let r := process env [c] st in
  fst r = Ret [seen c (fst direct)] /\
  world (snd r) = snd direct /\
  emitted (snd (init env st)) (snd r) [EvCall f (args_of c)] /\
  ~ In (EvCall (mimalloc_addr env (name (sym_of c))) (args_of c))
       [EvCall f (args_of c)].
Proof.
  intros Hc Hm Hl Hmi Hn f direct r. subst r direct f.
  assert (Hsel : selected env (name (sym_of c))
                 = next_addr env (name (sym_of c))).
  { unfold selected. now apply decision_rule_claimed. }
  unfold emitted. rewrite (init_log env Hc Hm).
  rewrite (process_direct env Hc Hm [c] st).
  - cbn [fst snd world log direct_calls map rev app]. unfold call_event.
    rewrite get_lut_of, Hsel. repeat split.
    intros [E | []]. injection E as E. congruence.
  - intros c' [<- | []]. now rewrite Hsel.
Qed.

(** X4: the decision is taken symbol by symbol, with no check that the
    symbols of one allocator stay together.  When a third party claims
    the symbol of [c1] but not that of [c2], the call [c1] goes to the
    third party and the following call [c2] goes to libmimalloc, on the
    memory the first call left. *)
Theorem partial_interposition_mixes_allocators {W : Type}
    (env : environment W) (c1 c2 : call_request) (st : state W) :
  libc_handle env <> NULL ->
  mimalloc_handle env <> NULL ->
  next_addr env (name (sym_of c1)) <> libc_addr env (name (sym_of c1)) ->
  next_addr env (name (sym_of c1)) <> mimalloc_addr env (name (sym_of c1)) ->
  next_addr env (name (sym_of c1)) <> NULL ->
  next_addr env (name (sym_of c2)) = libc_addr env (name (sym_of c2)) ->
  mimalloc_addr env (name (sym_of c2)) <> NULL ->
  let f1 := next_addr env (name (sym_of c1)) in
  let f2 := mimalloc_addr env (name (sym_of c2)) in
  let d1 := ld_call env f1 (args_of c1) (world st) in
  let d2 := ld_call env f2 (args_of c2) (snd d1) in
  let r := process env [c1; c2] st in
  fst r = Ret [seen c1 (fst d1); seen c2 (fst d2)] /\
  world (snd r) = snd d2 /\
  emitted (snd (init env st)) (snd r)
    [EvCall f1 (args_of c1); EvCall f2 (args_of c2)].
Proof.
  intros Hc Hm Hl1 Hmi1 Hn1 Hun2 Hmi2 f1 f2 d1 d2 r.
  subst r d2 d1 f2 f1.
  assert (Hsel1 : selected env (name (sym_of c1))
                  = next_addr env (name (sym_of c1))).
  { unfold selected. now apply decision_rule_claimed. }
  assert (Hsel2 : selected env (name (sym_of c2))
                  = mimalloc_addr env (name (sym_of c2))).
  { unfold selected. apply decision_rule_unclaimed. now left. }
  unfold emitted. rewrite (init_log env Hc Hm).
  rewrite (process_direct env Hc Hm [c1; c2] st).
  - cbn [fst snd world log direct_calls map rev app]. unfold call_event.
    rewrite !get_lut_of, Hsel1, Hsel2. repeat split.
  - intros c' [<- | [<- | []]]; [now rewrite Hsel1 | now rewrite Hsel2].
Qed.

(** X5: in terms of the three answers of [dlsym], with both libraries
    loaded: a symbol is left unresolved exactly when the lookup through
    libmimalloc's handle returns [NULL] and the [RTLD_NEXT] answer equals
    the answer through libc's handle (both may be [NULL]), or when the
    [RTLD_NEXT] lookup returns [NULL] while the lookup through
    libmimalloc's handle returns [NULL] or the one through libc's handle
    does not.  In exactly these cases, and in no other, the first call to
    the symbol aborts.  Which answer a handle lookup gives for a symbol
    the library does not export itself is the loader's business. *)
Theorem unresolved_iff {W : Type} (env : environment W)
    (c : call_request) (st : state W) :
  libc_handle env <> NULL ->
  mimalloc_handle env <> NULL ->
  let bad :=
    left_unresolved (next_addr env (name (sym_of c)))
      (libc_addr env (name (sym_of c)))
      (mimalloc_addr env (name (sym_of c))) in
  (fst (resolve_func env (name (sym_of c)) st) = Ret NULL <-> bad) /\
  (Lut.get (sym_of c) (lut (snd (init env st))) = NULL <-> bad) /\
  (fst (process env [c] st) = Aborted <-> bad).
Proof.
  intros Hc Hm bad. subst bad.
  rewrite <- decision_rule_null_iff. fold (selected env (name (sym_of c))).
  rewrite (resolve_func_loaded env _ st Hc Hm).
  rewrite (init_member env Hc Hm). cbn [fst].
  split; [|split].
  - split; [intros E; now injection E | intros ->; reflexivity].
  - reflexivity.
  - split.
    + intros Hab.
      destruct (Z.eq_dec (selected env (name (sym_of c))) NULL)
        as [E | E]; [exact E|].
      rewrite (process_direct env Hc Hm [c] st) in Hab.
      * discriminate Hab.
      * intros c' [<- | []]. exact E.
    + intros Hsel.
      now apply (first_call_unresolved env Hc Hm (sym_of c) st c [] Hsel).
Qed.

(** X6: the table starts out all [NULL].  Until [init] has run, every
    exported function aborts with the diagnostic for its own symbol,
    without calling anything. *)
Theorem calls_before_init_abort {W : Type} (env : environment W)
    (c : call_request) (st : state W) :
  lut st = Lut.initial ->
  let r := invoke env c st in
  fst r = Aborted /\
  emitted st (snd r) [EvStderr (msg_undefined (sym_of c)); EvAbort] /\
  world (snd r) = world st.
Proof.
  intros Hinit r. subst r.
  rewrite invoke_unresolved.
  - cbn [fst snd world]. repeat split.
  - rewrite Hinit. destruct c; reflexivity.
Qed.

(** X7: whatever the loader answers, [init] asks it about two libraries
    and twenty names only.  libc.so.6 is only ever probed with
    [RTLD_NOLOAD], never loaded; libmimalloc.so is opened with [RTLD_NOW]
    alone and only after libc was found; every symbol looked up is one of
    the twenty names, through [RTLD_NEXT] or in one of the two libraries. *)
Theorem init_loader_requests {W : Type} (env : environment W)
    (st : state W) (evs : list event) :
  emitted st (snd (init env st)) evs ->
  (forall file flags h,
      In (EvDlopen file flags h) evs ->
      (file = "libc.so.6" /\ Z.land flags RTLD_NOLOAD = RTLD_NOLOAD /\
       h = libc_handle env) \/
      (file = "libmimalloc.so" /\ flags = RTLD_NOW /\
       h = mimalloc_handle env /\ libc_handle env <> NULL)) /\
  (forall hd symbol p,
      In (EvDlsym hd symbol p) evs ->
      (exists s, symbol = name s) /\
      p = ld_dlsym env hd symbol /\
      (hd = RTLD_NEXT \/ hd = Lib (libc_handle env) \/
       hd = Lib (mimalloc_handle env))).
Proof.
  intros Hev.
  assert (Hcheck :
    forall e, In e evs ->
      In e (default_phase env) \/
      e = EvDlopen "libc.so.6" (Z.lor RTLD_NOW RTLD_NOLOAD)
            (libc_handle env) \/
      e = EvStderr msg_no_libc \/ e = EvAbort \/
      (libc_handle env <> NULL /\
       (e = EvDlopen "libmimalloc.so" RTLD_NOW (mimalloc_handle env) \/
        e = EvStderr msg_no_mimalloc \/
        In e (resolve_phase env) \/ In e (install_phase env)))).
  { destruct (Z.eq_dec (libc_handle env) NULL) as [Hc | Hc].
    - rewrite (init_no_libc env st Hc) in Hev. cbn [snd] in Hev.
      rewrite (emitted_unique _ _ _ _ Hev eq_refl).
      intros e Hin. apply in_app_or in Hin. destruct Hin as [Hin | Hin].
      + now left.
      + rewrite Hc. simpl in Hin. intuition auto.
    - destruct (Z.eq_dec (mimalloc_handle env) NULL) as [Hm | Hm].
      + rewrite (init_no_mimalloc env st Hc Hm) in Hev. cbn [snd] in Hev.
        rewrite (emitted_unique _ _ _ _ Hev eq_refl).
        intros e Hin. apply in_app_or in Hin. destruct Hin as [Hin | Hin].
        * now left.
        * rewrite Hm. simpl in Hin. intuition auto.
      + rewrite (init_loaded env st Hc Hm) in Hev. cbn [snd] in Hev.
        rewrite (emitted_unique _ _ _ _ Hev eq_refl).
        intros e Hin. apply in_app_or in Hin. destruct Hin as [Hin | Hin].
        * now left.
        * apply in_app_or in Hin. intuition auto. }
  split.
  - intros file flags h Hin. apply Hcheck in Hin.
    destruct Hin as [Hin | [E | [E | [E | (Hc & [E | [E | [Hin | Hin]]])]]]];
      try discriminate E.
    + apply default_phase_lookups in Hin.
      destruct Hin as (s & [E | E]); discriminate E.
    + injection E as -> -> ->. left. repeat split.
    + injection E as -> -> ->. right. repeat split. exact Hc.
    + apply resolve_phase_events in Hin. destruct Hin as (s & Hin).
      simpl in Hin.
      destruct Hin as [E | [E | [E | [E | [E | []]]]]];
        try discriminate E.
      * injection E as <- <- <-. left. repeat split.
      * injection E as <- <- <-. right. repeat split. exact Hc.
    + apply install_phase_stores in Hin.
      destruct Hin as (s & E). discriminate E.
  - intros hd symbol p Hin. apply Hcheck in Hin.
    destruct Hin as [Hin | [E | [E | [E | (Hc & [E | [E | [Hin | Hin]]])]]]];
      try discriminate E.
    + apply default_phase_lookups in Hin.
      destruct Hin as (s & [E | E]); [|discriminate E].
      injection E as -> -> ->. split; [now exists s|]. split; auto.
    + apply resolve_phase_events in Hin. destruct Hin as (s & Hin).
      simpl in Hin.
      destruct Hin as [E | [E | [E | [E | [E | []]]]]];
        try discriminate E;
        injection E as <- <- <-; (split; [now exists s|]); split; auto.
    + apply install_phase_stores in Hin.
      destruct Hin as (s & E). discriminate E.
Qed.

Lemma shim_is_transparent_witness :
  libc_handle env_plain <> NULL /\
  mimalloc_handle env_plain <> NULL /\
  fst (process env_plain [call_malloc 16; call_free 2017; call_strdup 5]
         (boot 0%nat))
  = Ret [Some 2017; None; Some 2010] /\
  world (snd (process env_plain
                [call_malloc 16; call_free 2017; call_strdup 5]
                (boot 0%nat))) = 3%nat.
Proof.
  assert (Hc : libc_handle env_plain <> NULL)
    by (vm_compute; discriminate).
  assert (Hm : mimalloc_handle env_plain <> NULL)
    by (vm_compute; discriminate).
  assert (Hres : forall c,
             In c [call_malloc 16; call_free 2017; call_strdup 5] ->
             selected env_plain (name (sym_of c)) <> NULL).
  { intros c [<- | [<- | [<- | []]]]; vm_compute; discriminate. }
  destruct (shim_is_transparent env_plain
              [call_malloc 16; call_free 2017; call_strdup 5] (boot 0%nat)
              Hc Hm Hres) as (Hret & Hworld & _).
  split; [exact Hc|]. split; [exact Hm|].
  split; [exact Hret | exact Hworld].
Defined.

Lemma unclaimed_symbol_served_by_mimalloc_witness :
  libc_handle env_plain <> NULL /\
  mimalloc_handle env_plain <> NULL /\
  next_addr env_plain "malloc" = libc_addr env_plain "malloc" /\
  mimalloc_addr env_plain "malloc" = 2001 /\
  fst (process env_plain [call_malloc 16] (boot 0%nat))
  = Ret [Some (fst (ld_call env_plain 2001 [16] 0%nat))].
Proof.
  assert (Hc : libc_handle env_plain <> NULL)
    by (vm_compute; discriminate).
  assert (Hm : mimalloc_handle env_plain <> NULL)
    by (vm_compute; discriminate).
  assert (Hun : next_addr env_plain (name (sym_of (call_malloc 16)))
                = libc_addr env_plain (name (sym_of (call_malloc 16))))
    by reflexivity.
  assert (Hmi : mimalloc_addr env_plain (name (sym_of (call_malloc 16)))
                <> NULL)
    by (vm_compute; discriminate).
  destruct (unclaimed_symbol_served_by_mimalloc env_plain (call_malloc 16)
              (boot 0%nat) Hc Hm (or_introl Hun) Hmi) as (Hret & _).
  split; [exact Hc|]. split; [exact Hm|]. split; [exact Hun|].
  split; [reflexivity | exact Hret].
Defined.

Lemma claimed_symbol_served_by_interposer_witness :
  libc_handle env_interposed <> NULL /\
  mimalloc_handle env_interposed <> NULL /\
  next_addr env_interposed "malloc" = 3001 /\
  libc_addr env_interposed "malloc" = 1001 /\
  mimalloc_addr env_interposed "malloc" = 2001 /\
  fst (process env_interposed [call_malloc 16] (boot 0%nat))
  = Ret [Some (fst (ld_call env_interposed 3001 [16] 0%nat))].
Proof.
  assert (Hc : libc_handle env_interposed <> NULL)
    by (vm_compute; discriminate).
  assert (Hm : mimalloc_handle env_interposed <> NULL)
    by (vm_compute; discriminate).
  assert (Hl : next_addr env_interposed (name (sym_of (call_malloc 16)))
               <> libc_addr env_interposed
                    (name (sym_of (call_malloc 16))))
    by (vm_compute; discriminate).
  assert (Hmi : next_addr env_interposed (name (sym_of (call_malloc 16)))
                <> mimalloc_addr env_interposed
                     (name (sym_of (call_malloc 16))))
    by (vm_compute; discriminate).
  assert (Hn : next_addr env_interposed (name (sym_of (call_malloc 16)))
               <> NULL)
    by (vm_compute; discriminate).
  destruct (claimed_symbol_served_by_interposer env_interposed
              (call_malloc 16) (boot 0%nat) Hc Hm Hl Hmi Hn)
    as (Hret & _).
  split; [exact Hc|]. split; [exact Hm|].
  repeat (split; [reflexivity|]). exact Hret.
Defined.

Lemma partial_interposition_mixes_allocators_witness :
  libc_handle env_partial <> NULL /\
  mimalloc_handle env_partial <> NULL /\
  next_addr env_partial "malloc" = 3001 /\
  next_addr env_partial "free" = libc_addr env_partial "free" /\
  log (snd (process env_partial [call_malloc 16; call_free 3017]
              (boot 0%nat)))
  = [EvCall 2004 [3017]; EvCall 3001 [16]]
    ++ log (snd (init env_partial (boot 0%nat))).
Proof.
  assert (Hc : libc_handle env_partial <> NULL)
    by (vm_compute; discriminate).
  assert (Hm : mimalloc_handle env_partial <> NULL)
    by (vm_compute; discriminate).
  assert (Hl : next_addr env_partial (name (sym_of (call_malloc 16)))
               <> libc_addr env_partial (name (sym_of (call_malloc 16))))
    by (vm_compute; discriminate).
  assert (Hmi : next_addr env_partial (name (sym_of (call_malloc 16)))
                <> mimalloc_addr env_partial
                     (name (sym_of (call_malloc 16))))
    by (vm_compute; discriminate).
  assert (Hn : next_addr env_partial (name (sym_of (call_malloc 16)))
               <> NULL)
    by (vm_compute; discriminate).
  assert (Hun : next_addr env_partial (name (sym_of (call_free 3017)))
                = libc_addr env_partial (name (sym_of (call_free 3017))))
    by reflexivity.
  assert (Hmi2 : mimalloc_addr env_partial (name (sym_of (call_free 3017)))
                 <> NULL)
    by (vm_compute; discriminate).
  destruct (partial_interposition_mixes_allocators env_partial
              (call_malloc 16) (call_free 3017) (boot 0%nat)
              Hc Hm Hl Hmi Hn Hun Hmi2) as (_ & _ & Hev).
  split; [exact Hc|]. split; [exact Hm|].
  split; [reflexivity|]. split; [exact Hun|]. exact Hev.
Defined.

Lemma unresolved_iff_witness :
  libc_handle env_plain <> NULL /\
  mimalloc_handle env_plain <> NULL /\
  fst (process env_plain [call_pvalloc 4096] (boot 0%nat)) = Aborted /\
  fst (process env_plain [call_valloc 4096] (boot 0%nat)) <> Aborted.
Proof.
  assert (Hc : libc_handle env_plain <> NULL)
    by (vm_compute; discriminate).
  assert (Hm : mimalloc_handle env_plain <> NULL)
    by (vm_compute; discriminate).
  split; [exact Hc|]. split; [exact Hm|]. split.
  - destruct (unresolved_iff env_plain (call_pvalloc 4096) (boot 0%nat)
                Hc Hm) as (_ & _ & Hiff).
    apply Hiff. left. split; reflexivity.
  - destruct (unresolved_iff env_plain (call_valloc 4096) (boot 0%nat)
                Hc Hm) as (_ & _ & Hiff).
    intros Hab. apply Hiff in Hab.
    destruct Hab as [[E _] | [E _]]; vm_compute in E; discriminate E.
Defined.

Lemma calls_before_init_abort_witness :
  lut (boot 0%nat) = Lut.initial /\
  fst (invoke env_plain (call_free 0) (boot 0%nat)) = Aborted /\
  log (snd (invoke env_plain (call_free 0) (boot 0%nat)))
  = [EvAbort; EvStderr ("free() is not defined" ++ nl)%string].
Proof.
  assert (H : lut (boot 0%nat) = Lut.initial) by reflexivity.
  destruct (calls_before_init_abort env_plain (call_free 0) (boot 0%nat) H)
    as (Hab & Hev & _).
  split; [exact H|]. split; [exact Hab | exact Hev].
Defined.

Lemma init_loader_requests_witness :
  emitted (boot 0%nat) (snd (init env_plain (boot 0%nat)))
    (default_phase env_plain ++ resolve_phase env_plain
     ++ install_phase env_plain) /\
  (forall file flags h,
      In (EvDlopen file flags h)
        (default_phase env_plain ++ resolve_phase env_plain
         ++ install_phase env_plain) ->
      file = "libc.so.6" \/ file = "libmimalloc.so").
Proof.
  assert (Hev : emitted (boot 0%nat) (snd (init env_plain (boot 0%nat)))
                  (default_phase env_plain ++ resolve_phase env_plain
                   ++ install_phase env_plain))
    by (unfold emitted; vm_compute; reflexivity).
  split; [exact Hev|].
  destruct (init_loader_requests env_plain (boot 0%nat) _ Hev)
    as (Hopen & _).
  intros file flags h Hin.
  destruct (Hopen file flags h Hin) as [(E & _) | (E & _)];
    [now left | now right].
Defined.

(** ** The table while resolution is under way *)

Lemma apply_stores_app (evs1 evs2 : list event) :
  forall l : malloc_lut,
    apply_stores (evs1 ++ evs2) l = apply_stores evs2 (apply_stores evs1 l).
Proof.
  induction evs1 as [| e evs1 IH]; intros l; [reflexivity|].
  destruct e; cbn [app apply_stores]; apply IH.
Qed.

Lemma apply_stores_without_store (evs : list event) :
  forall l : malloc_lut,
    (forall e, In e evs -> is_store e = false) -> apply_stores evs l = l.
Proof.
  induction evs as [| e evs IH]; intros l H; [reflexivity|].
  pose proof (H e (or_introl eq_refl)) as He.
  destruct e; try discriminate He; cbn [apply_stores];
    apply IH; intros e' Hin; apply H; now right.
Qed.

Lemma in_firstn {A : Type} (k : nat) (l : list A) (x : A) :
  In x (firstn k l) -> In x l.
Proof.
  intros H. rewrite <- (firstn_skipn k l). apply in_or_app. now left.
Qed.

Lemma resolve_phase_without_store {W : Type} (env : environment W)
    (e : event) :
  In e (resolve_phase env) -> is_store e = false.
Proof.
  intros H. apply resolve_phase_events in H. destruct H as (s & H).
  simpl in H.
  destruct H as [<- | [<- | [<- | [<- | [<- | []]]]]]; reflexivity.
Qed.

(** X8: from the moment the temporary defaults are in place and through
    any number of steps of the resolution phase, the stores made so far
    leave every member at its [RTLD_NEXT] address.  An exported function
    entered with the table in that state, as an allocation made by the
    loader would, is forwarded to the [RTLD_NEXT] implementation; if that
    lookup had failed it aborts. *)
Theorem table_during_resolution {W : Type} (env : environment W)
    (st st' : state W) (k : nat) (c : call_request) :
  lut st' =
    apply_stores (default_phase env ++ firstn k (resolve_phase env))
      (lut st) ->
  let f := next_addr env (name (sym_of c)) in
  lut st' = lut_of (next_addr env) /\
  (f <> NULL ->
   fst (invoke env c st')
   = Ret (seen c (fst (ld_call env f (args_of c) (world st')))) /\
   emitted st' (snd (invoke env c st')) [EvCall f (args_of c)]) /\
  (f = NULL ->
   fst (invoke env c st') = Aborted /\
   emitted st' (snd (invoke env c st'))
     [EvStderr (msg_undefined (sym_of c)); EvAbort]).
Proof.
  intros Hst f. subst f.
  assert (Htab : lut st' = lut_of (next_addr env)).
  { rewrite Hst, apply_stores_app.
    rewrite apply_stores_without_store.
    - reflexivity.
    - intros e Hin. apply in_firstn in Hin.
      now apply resolve_phase_without_store in Hin. }
  assert (Hget : Lut.get (sym_of c) (lut st')
                 = next_addr env (name (sym_of c))).
  { rewrite Htab. apply get_lut_of. }
  split; [exact Htab|]. split.
  - intros Hf. rewrite invoke_resolved by (now rewrite Hget).
    rewrite Hget. cbn [fst snd]. split; reflexivity.
  - intros Hf. rewrite invoke_unresolved by (now rewrite Hget).
    cbn [fst snd]. split; reflexivity.
Qed.

(** X9: whether it returns or aborts, [resolve_func] leaves the table
    as it was and stores nothing in it.  It aborts exactly when the
    handle of libc or of libmimalloc is [NULL], never because a symbol
    lookup failed; when it returns it has written no diagnostic. *)
Theorem resolve_func_frame {W : Type} (env : environment W)
    (symbol : string) (st : state W) :
  let r := resolve_func env symbol st in
  lut (snd r) = lut st /\
  (fst r = Aborted <->
   libc_handle env = NULL \/ mimalloc_handle env = NULL) /\
  (forall evs,
      emitted st (snd r) evs ->
      filter is_store evs = [] /\
      (fst r <> Aborted -> forall msg, ~ In (EvStderr msg) evs)).
Proof.
  intros r. subst r.
  destruct (Z.eq_dec (libc_handle env) NULL) as [Hc | Hc];
    [| destruct (Z.eq_dec (mimalloc_handle env) NULL) as [Hm | Hm]].
  - rewrite (resolve_func_no_libc env symbol st Hc). cbn [fst snd lut].
    split; [reflexivity|]. split; [split; auto|].
    intros evs Hev. rewrite (emitted_unique _ _ _ _ Hev eq_refl).
    split; [reflexivity|]. intros Hne. now contradiction Hne.
  - rewrite (resolve_func_no_mimalloc env symbol st Hc Hm).
    cbn [fst snd lut].
    split; [reflexivity|]. split; [split; auto|].
    intros evs Hev. rewrite (emitted_unique _ _ _ _ Hev eq_refl).
    split; [reflexivity|]. intros Hne. now contradiction Hne.
  - rewrite (resolve_func_loaded env symbol st Hc Hm). cbn [fst snd lut].
    split; [reflexivity|]. split.
    + split; [discriminate | intros [E | E]; contradiction].
    + intros evs Hev. rewrite (emitted_unique _ _ _ _ Hev eq_refl).
      split; [reflexivity|]. intros _ msg Hin. simpl in Hin.
      destruct Hin as [E | [E | [E | [E | [E | []]]]]]; discriminate E.
Qed.

(** X10: the text written before an abort tells which failure it was:
    the diagnostics of two different symbols differ, and none of them is
    the text for a missing libc or a missing libmimalloc, which differ
    from each other too. *)
Theorem diagnostics_identify_failure (s s' : symbol) :
  (msg_undefined s = msg_undefined s' -> s = s') /\
  (name s = name s' -> s = s') /\
  msg_undefined s <> msg_no_libc /\
  msg_undefined s <> msg_no_mimalloc /\
  msg_no_libc <> msg_no_mimalloc.
Proof.
  split; [|split; [|split; [|split]]].
  - destruct s, s'; intros H; try reflexivity; cbv in H; discriminate H.
  - destruct s, s'; intros H; try reflexivity; cbv in H; discriminate H.
  - destruct s; intros H; cbv in H; discriminate H.
  - destruct s; intros H; cbv in H; discriminate H.
  - intros H; cbv in H; discriminate H.
Qed.

Lemma table_during_resolution_witness :
  fst (invoke env_plain (call_malloc 16)
         {| lut := apply_stores
                     (default_phase env_plain
                      ++ firstn 7 (resolve_phase env_plain))
                     Lut.initial;
            world := 0%nat; log := [] |})
  = Ret (Some (fst (ld_call env_plain 1001 [16] 0%nat))) /\
  fst (invoke env_plain (call_reallocf 0 16)
         {| lut := apply_stores
                     (default_phase env_plain
                      ++ firstn 7 (resolve_phase env_plain))
                     Lut.initial;
            world := 0%nat; log := [] |})
  = Aborted.
Proof.
  split.
  - destruct (table_during_resolution env_plain (boot 0%nat)
                {| lut := apply_stores
                            (default_phase env_plain
                             ++ firstn 7 (resolve_phase env_plain))
                            Lut.initial;
                   world := 0%nat; log := [] |}
                7 (call_malloc 16) eq_refl) as (_ & Hcall & _).
    apply Hcall. vm_compute. discriminate.
  - destruct (table_during_resolution env_plain (boot 0%nat)
                {| lut := apply_stores
                            (default_phase env_plain
                             ++ firstn 7 (resolve_phase env_plain))
                            Lut.initial;
                   world := 0%nat; log := [] |}
                7 (call_reallocf 0 16) eq_refl) as (_ & _ & Habort).
    apply Habort. reflexivity.
Defined.

Lemma resolve_func_frame_witness :
  emitted (boot 0%nat) (snd (resolve_func env_no_mimalloc "free" (boot 0%nat)))
    [ EvDlopen "libc.so.6" (Z.lor RTLD_NOW RTLD_NOLOAD) 100;
      EvDlopen "libmimalloc.so" RTLD_NOW NULL;
      EvStderr msg_no_mimalloc; EvAbort ] /\
  fst (resolve_func env_no_mimalloc "free" (boot 0%nat)) = Aborted /\
  lut (snd (resolve_func env_no_mimalloc "free" (boot 0%nat))) = Lut.initial.
Proof.
  assert (Hev : emitted (boot 0%nat)
                  (snd (resolve_func env_no_mimalloc "free" (boot 0%nat)))
                  [ EvDlopen "libc.so.6" (Z.lor RTLD_NOW RTLD_NOLOAD) 100;
                    EvDlopen "libmimalloc.so" RTLD_NOW NULL;
                    EvStderr msg_no_mimalloc; EvAbort ])
    by reflexivity.
  destruct (resolve_func_frame env_no_mimalloc "free" (boot 0%nat))
    as (Hlut & Hab & _).
  split; [exact Hev|]. split.
  - apply Hab. right. reflexivity.
  - exact Hlut.
Defined.

(** C6, as it was stated: under a loader with glibc's handle lookup,
    [pvalloc] is defined by libc, is not exported by libmimalloc and is
    claimed by nobody, yet [resolve_func] returns libc's address, not
    [NULL], and the call is served. *)
Lemma platform_only_symbol_served_when_linked :
  lookup glibc_tab "pvalloc" = 1014 /\
  lookup mimalloc_tab "pvalloc" = NULL /\
  libc_handle env_linked <> NULL /\
  mimalloc_handle env_linked <> NULL /\
  libc_addr env_linked "pvalloc" = 1014 /\
  next_addr env_linked "pvalloc" = libc_addr env_linked "pvalloc" /\
  fst (resolve_func env_linked "pvalloc" (boot 0%nat)) = Ret 1014 /\
  fst (resolve_func env_linked "pvalloc" (boot 0%nat)) <> Ret NULL /\
  Lut.get sym_pvalloc (lut (snd (init env_linked (boot 0%nat)))) = 1014 /\
  fst (process env_linked [call_pvalloc 4096] (boot 0%nat))
  = Ret [Some (fst (ld_call env_linked 1014 [4096] 0%nat))] /\
  fst (process env_linked [call_pvalloc 4096] (boot 0%nat)) <> Aborted.
Proof.
  repeat split; try (vm_compute; reflexivity);
    vm_compute; discriminate.
Qed.
